(** * environment: loading [.env] files and the process environment into records

    A shallow embedding of the Go package [environment] (file [env.go]):
    the [.env] file parser ([loadEnv], [processValue], [expandEnvVars]),
    the multi-file merge of [fillSpecification], and the reflective record
    populator ([parseEnv], [getValueFromEnvOrFile], [setValue]).

    Go strings are byte sequences and are modelled by [string] (a list of
    8-bit characters).  Go maps with string keys are [gmap string string].
    A run-time panic (an out-of-range index or slice, a failed
    [reflect.Value.Set]) is a result of its own, never an error value. *)

From Stdlib Require Import ZArith Ascii String List Bool Lia.
From stdpp Require Import base option gmap strings list fin_maps.

Local Open Scope Z_scope.
Set Warnings "-register-all".

(* stdpp keeps [simpl] from unfolding string concatenation; the parser's
   lemmas compute with it. *)
#[local] Arguments String.append !_ _ / : simpl nomatch.

(** ** Bytes and Go string primitives *)

Module GoString.

Definition code (c : ascii) : N := N_of_ascii c.

Definition chr (n : N) : ascii := ascii_of_N n.

Definition eqc (a b : ascii) : bool := Ascii.eqb a b.

Definition len (s : string) : Z := Z.of_nat (String.length s).

(** [s[i]]: panics ([None]) when [i] is out of range. *)
Definition index (s : string) (i : Z) : option ascii :=
  if (0 <=? i) && (i <? len s) then String.get (Z.to_nat i) s else None.

(** [s[lo:hi]]: panics ([None]) unless [0 <= lo <= hi <= len s]. *)
Definition slice (s : string) (lo hi : Z) : option string :=
  if (0 <=? lo) && (lo <=? hi) && (hi <=? len s)
  then Some (String.substring (Z.to_nat lo) (Z.to_nat (hi - lo)) s)
  else None.

Fixpoint drop (n : nat) (s : string) : string :=
  match n, s with
  | O, _ => s
  | S n', String _ r => drop n' r
  | S _, EmptyString => EmptyString
  end.

Fixpoint rev_onto (s acc : string) : string :=
  match s with
  | EmptyString => acc
  | String c r => rev_onto r (String c acc)
  end.

Definition rev (s : string) : string := rev_onto s EmptyString.

(** [strings.HasPrefix(s, p)] *)
Fixpoint HasPrefix (s p : string) : bool :=
  match p, s with
  | EmptyString, _ => true
  | String a p', String b s' => eqc a b && HasPrefix s' p'
  | String _ _, EmptyString => false
  end.

(** [strings.HasSuffix(s, p)] *)
Definition HasSuffix (s p : string) : bool := HasPrefix (rev s) (rev p).

(** [strings.TrimSuffix(s, p)] *)
Definition TrimSuffix (s p : string) : string :=
  if HasSuffix s p then rev (drop (String.length p) (rev s)) else s.

(** The six bytes of [strings.asciiSpace]. *)
Definition asciiSpace (c : ascii) : bool :=
  match code c with
  | 9 | 10 | 11 | 12 | 13 | 32 => true
  | _ => false
  end%N.

(** Width in bytes of the white-space rune ([unicode.IsSpace]) that [s]
    starts with, or [0] when the first rune of [s] is not white space.
    Besides the ASCII ones these are U+0085, U+00A0 (two bytes in UTF-8)
    and U+1680, U+2000..U+200A, U+2028, U+2029, U+202F, U+205F, U+3000
    (three bytes). *)
Definition leadingSpaceWidth (s : string) : nat :=
  match s with
  | EmptyString => 0
  | String c0 r0 =>
      if asciiSpace c0 then 1
      else match r0 with
           | EmptyString => 0
           | String c1 r1 =>
               let b0 := code c0 in
               let b1 := code c1 in
               if ((b0 =? 194) && ((b1 =? 133) || (b1 =? 160)))%N then 2
               else match r1 with
                    | EmptyString => 0
                    | String c2 _ =>
                        let b2 := code c2 in
                        if ((b0 =? 225) && (b1 =? 154) && (b2 =? 128)
                            || (b0 =? 226) && (b1 =? 128)
                               && ((128 <=? b2) && (b2 <=? 138)
                                   || (b2 =? 168) || (b2 =? 169) || (b2 =? 175))
                            || (b0 =? 226) && (b1 =? 129) && (b2 =? 159)
                            || (b0 =? 227) && (b1 =? 128) && (b2 =? 128))%N
                        then 3 else 0
                    end
           end
  end%nat.

(** The same for the last rune of [s], read on the reversed string. *)
Definition trailingSpaceWidth (r : string) : nat :=
  match r with
  | EmptyString => 0
  | String c0 r0 =>
      if asciiSpace c0 then 1
      else match r0 with
           | EmptyString => 0
           | String c1 r1 =>
               if leadingSpaceWidth (String c1 (String c0 EmptyString)) =? 2
               then 2
               else match r1 with
                    | EmptyString => 0
                    | String c2 _ =>
                        if leadingSpaceWidth
                             (String c2 (String c1 (String c0 EmptyString))) =? 3
                        then 3 else 0
                    end
           end
  end%nat.

Fixpoint trimWith (width : string -> nat) (fuel : nat) (s : string) : string :=
  match fuel with
  | O => s
  | S fuel' =>
      match width s with
      | O => s
      | w => trimWith width fuel' (drop w s)
      end
  end.

(** [strings.TrimSpace]: leading white-space runes are removed first, then
    trailing ones from what is left. *)
Definition TrimSpace (s : string) : string :=
  let l := trimWith leadingSpaceWidth (String.length s) s in
  rev (trimWith trailingSpaceWidth (String.length l) (rev l)).

(** [strings.SplitN(s, sep, 2)] for a one-byte separator: [None] stands for
    the one-element result (no separator in [s]). *)
Fixpoint cut (sep : ascii) (s : string) : option (string * string) :=
  match s with
  | EmptyString => None
  | String c r =>
      if eqc c sep then Some (EmptyString, r)
      else match cut sep r with
           | Some (a, b) => Some (String c a, b)
           | None => None
           end
  end.

(** [strings.Split(s, sep)] for a one-byte separator. *)
Fixpoint Split (sep : ascii) (s : string) : list string :=
  match s with
  | EmptyString => [EmptyString]
  | String c r =>
      if eqc c sep then EmptyString :: Split sep r
      else match Split sep r with
           | x :: xs => String c x :: xs
           | [] => [String c EmptyString]
           end
  end.

End GoString.

Import GoString.

(** ** Results *)

(** Errors of [os.Open] and of the scanner, returned to the caller as they
    are.  [not_exist] is [errors.Is(err, os.ErrNotExist)]. *)
Record os_error := OsError { not_exist : bool; os_message : string }.

Inductive error :=
| ErrDoesNotExist (filename : string)
| ErrOs (e : os_error)
| ErrInvalidName (key : string)
| ErrLoading (cause : error)
| ErrFieldLoad (cause : error)
| ErrRequiredMissing (envTag : string)
| ErrSetField (name : string) (cause : error)
| ErrSyntax (fn num : string)
| ErrRange (fn num : string)
| ErrUnsupported (kind : string)
| ErrLibrary (msg : string)
| ErrCustom (msg : string).

(** [num] between double quotes (byte 34), as [strconv.Quote] renders a
    numeral of printable ASCII. *)
Definition quoted (num : string) : string :=
  String (chr 34) (num +:+ String (chr 34) EmptyString).

(** The text of an error ([err.Error()], or [%v] in [fmt.Errorf]). *)
Fixpoint Error (e : error) : string :=
  match e with
  | ErrDoesNotExist filename => filename +:+ " does not exist"
  | ErrOs e => os_message e
  | ErrInvalidName key => "invalid environment variable name: " +:+ key
  | ErrLoading cause => "error loading .env file: " +:+ Error cause
  | ErrFieldLoad cause => "field load environment: " +:+ Error cause
  | ErrRequiredMissing envTag =>
      "required environment variable " +:+ envTag +:+ " is missing"
  | ErrSetField name cause =>
      "error setting field " +:+ name +:+ ": " +:+ Error cause
  | ErrSyntax fn num =>
      "strconv." +:+ fn +:+ ": parsing " +:+ quoted num +:+ ": invalid syntax"
  | ErrRange fn num =>
      "strconv." +:+ fn +:+ ": parsing " +:+ quoted num
        +:+ ": value out of range"
  | ErrUnsupported kind => "unsupported type " +:+ kind
  | ErrLibrary msg => msg
  | ErrCustom msg => msg
  end.

Inductive result (A : Type) :=
| Ok (a : A)
| Err (e : error)
| Panic.

Arguments Ok {A} a.
Arguments Err {A} e.
Arguments Panic {A}.

#[global] Instance result_bind : MBind result := fun A B k r =>
  match r with
  | Ok a => k a
  | Err e => Err e
  | Panic => Panic
  end.

#[global] Instance result_ret : MRet result := fun A a => Ok a.

(** ** Value post-processing *)

(** The replacer built by [strings.NewReplacer] for the four two-byte escapes:
    matches are taken left to right and do not overlap. *)
Fixpoint replaceEscapes (s : string) : string :=
  match s with
  | EmptyString => EmptyString
  | String c r =>
      match r with
      | String d r' =>
          if eqc c "\" then
            if eqc d "n" then String (chr 10) (replaceEscapes r')
            else if eqc d "t" then String (chr 9) (replaceEscapes r')
            else if eqc d "r" then String (chr 13) (replaceEscapes r')
            else if eqc d "\" then String "\" (replaceEscapes r')
            else String c (replaceEscapes r)
          else String c (replaceEscapes r)
      | EmptyString => String c EmptyString
      end
  end.

(** The double quote, byte 34. *)
Definition dquote : ascii := chr 34.

Definition isQuote (c : ascii) : bool := eqc c dquote || eqc c "'".

(** [processValue]: [None] is a run-time panic of the indexing or slicing. *)
Definition processValue (value : string) : option string :=
  if String.eqb value EmptyString then Some value
  else
    let value := replaceEscapes value in
    quote ← index value 0;
    if isQuote quote then
      last ← index value (len value - 1);
      if eqc last quote then slice value 1 (len value - 1) else Some value
    else Some value.

(** ** The two regular expressions *)

Definition isLetter (c : ascii) : bool :=
  let b := code c in
  ((97 <=? b) && (b <=? 122) || (65 <=? b) && (b <=? 90) || (b =? 95))%N.

Definition isWord (c : ascii) : bool :=
  let b := code c in
  (isLetter c || (48 <=? b) && (b <=? 57))%N.

Fixpoint allWord (s : string) : bool :=
  match s with
  | EmptyString => true
  | String c r => isWord c && allWord r
  end.

(** [validEnvVarRegex.MatchString]: the whole of [key] is a letter or [_]
    followed by letters, digits and [_]. *)
Definition validEnvVarRegex (key : string) : bool :=
  match key with
  | EmptyString => false
  | String c r => isLetter c && allWord r
  end.

(** The longest run of word bytes at the start of [s], and what follows. *)
Fixpoint spanWord (s : string) : string * string :=
  match s with
  | EmptyString => (EmptyString, EmptyString)
  | String c r =>
      if isWord c then let '(w, t) := spanWord r in (String c w, t)
      else (EmptyString, s)
  end.

(** A match of [envVarRegex] anchored at the start of [s]: the captured name
    and the text after the closing brace.  The class of the starred part
    excludes the brace, so the longest run is the only candidate. *)
Definition envVarRegex (s : string) : option (string * string) :=
  match s with
  | String d (String o (String c r)) =>
      if eqc d "$" && eqc o "{" && isLetter c then
        let '(w, t) := spanWord r in
        match t with
        | String e t' => if eqc e "}" then Some (String c w, t') else None
        | EmptyString => None
        end
      else None
  | _ => None
  end.

(** The text of a reference to [name], as the regular expression matched it. *)
Definition reference (name : string) : string := "${" +:+ name +:+ "}".

(** ** The process environment and the file system *)

(** What the scanner yields for an opened file: its lines, then possibly a
    read error ([scanner.Err()]). *)
Record file := File { lines : list string; scanErr : option os_error }.

Record OS := MkOS {
  Clean : string -> string;                 (* filepath.Clean *)
  Open : string -> file + os_error;         (* os.Open, then the scanner *)
  environ : gmap string string              (* the process environment *)
}.

(** [os.LookupEnv] *)
Definition LookupEnv (os : OS) (name : string) : option string :=
  environ os !! name.

(** [os.Getenv] *)
Definition Getenv (os : OS) (name : string) : string :=
  default EmptyString (environ os !! name).

(** ** Expansion of references *)

(** The function [expandEnvVars] hands to [ReplaceAllStringFunc]; [varName]
    is [match[2 : len(match)-1]]. *)
Definition expandRef (os : OS) (envVars : gmap string string)
    (varName : string) : string :=
  match envVars !! varName with
  | Some val => val
  | None =>
      match LookupEnv os varName with
      | Some val => val
      | None => reference varName
      end
  end.

(** [ReplaceAllStringFunc]: leftmost matches, not overlapping; every step
    consumes at least one byte, so [fuel] above the length is never used up. *)
Fixpoint replaceAllRefs (fuel : nat) (repl : string -> string)
    (s : string) : string :=
  match fuel with
  | O => s
  | S fuel' =>
      match envVarRegex s with
      | Some (name, rest) => repl name +:+ replaceAllRefs fuel' repl rest
      | None =>
          match s with
          | EmptyString => EmptyString
          | String c r => String c (replaceAllRefs fuel' repl r)
          end
      end
  end.

Definition expandEnvVars (os : OS) (value : string)
    (envVars : gmap string string) : string :=
  replaceAllRefs (S (String.length value)) (expandRef os envVars) value.

(** ** The file parser *)

(** The variables of the scanning loop of [loadEnv]. *)
Record scanState := ScanState {
  envVars : gmap string string;
  buffer : string;
  multiline : bool
}.

Definition scanInit : scanState := ScanState ∅ EmptyString false.

(** One iteration of [for scanner.Scan()] on the line [text]. *)
Definition scanLine (os : OS) (st : scanState) (text : string)
    : result scanState :=
  let line := TrimSpace text in
  if String.eqb line EmptyString || HasPrefix line "#" then Ok st
  else if HasSuffix line "\" then
    Ok (ScanState (envVars st) (buffer st +:+ TrimSuffix line "\") true)
  else
    let line := if multiline st then buffer st +:+ line else line in
    let buf := if multiline st then EmptyString else buffer st in
    match cut "=" line with
    | None => Ok (ScanState (envVars st) buf false)
    | Some (k, v) =>
        let key := TrimSpace k in
        if negb (validEnvVarRegex key) then Err (ErrInvalidName key)
        else
          match processValue (TrimSpace v) with
          | None => Panic
          | Some value =>
              let value := expandEnvVars os value (envVars st) in
              Ok (ScanState (<[key := value]> (envVars st)) buf false)
          end
    end.

Fixpoint scanLines (os : OS) (st : scanState) (ls : list string)
    : result scanState :=
  match ls with
  | [] => Ok st
  | text :: rest => st' ← scanLine os st text; scanLines os st' rest
  end.

(** [loadEnv].  Closing a file opened for reading is taken to succeed. *)
Definition loadEnv (os : OS) (filename : string)
    : result (gmap string string) :=
  match Open os (Clean os filename) with
  | inr err =>
      if not_exist err then Err (ErrDoesNotExist filename) else Err (ErrOs err)
  | inl f =>
      st ← scanLines os scanInit (lines f);
      match scanErr f with
      | Some err => Err (ErrOs err)
      | None => Ok (envVars st)
      end
  end.

(** [for k, v := range fileVars { envVars[k] = v }] *)
Definition mergeVars (fileVars envVars : gmap string string)
    : gmap string string :=
  map_fold (fun k v acc => <[k := v]> acc) envVars fileVars.

(** The loop over [paths] of [fillSpecification]. *)
Fixpoint loadPaths (os : OS) (paths : list string)
    (envVars : gmap string string) : result (gmap string string) :=
  match paths with
  | [] => Ok envVars
  | path :: rest =>
      match loadEnv os path with
      | Ok fileVars => loadPaths os rest (mergeVars fileVars envVars)
      | Err err => Err (ErrLoading err)
      | Panic => Panic
      end
  end.

(** ** Record shapes and values (what the populator sees through [reflect]) *)

Inductive intKind := Int | Int8 | Int16 | Int32 | Int64.

(** Width of a signed integer kind; [int] has [strconv.IntSize = 64] bits. *)
Definition bitsOf (k : intKind) : Z :=
  match k with
  | Int => 64
  | Int8 => 8
  | Int16 => 16
  | Int32 => 32
  | Int64 => 64
  end.

Inductive Value :=
| VString (s : string)
| VInt (n : Z)
| VBool (b : bool)
| VSlice (elems : list Value)
| VMap (m : gmap string string)
| VStruct (vals : list Value)
| VOpaque.

(** The Custom Conversion Capability: [ParseEnv(value string) error] with a
    pointer receiver, so it may change the record it is called on. *)
Definition CustomParser : Type := string -> Value -> Value * result unit.

(** Go types by what [setValue] and [parseEnv] distinguish: the kind, whether
    the type is [time.Duration], whether a map type accepts a
    [map[string]string], and for a record its fields and whether its pointer
    implements [CustomParser]. *)
Inductive type :=
| StringT
| IntT (k : intKind)
| DurationT
| BoolT
| SliceT (elem : type)
| MapStringStringT
| MapOtherT
| StructT (fields : structFields) (custom : option CustomParser)
| OtherT (kind : string)
with structFields :=
| NoFields
| Field (name : string) (tag : gmap string string) (typ : type)
        (rest : structFields).

(** Induction over a type together with the fields of its records. *)
Scheme type_fields_ind := Induction for type Sort Prop
  with fields_type_ind := Induction for structFields Sort Prop.

(** [structField.Tag.Get(key)]: the empty string when the key is absent. *)
Definition TagGet (tag : gmap string string) (key : string) : string :=
  default EmptyString (tag !! key).

(** The library conversions the populator calls. *)
Record Lib := MkLib {
  ParseDuration : string -> result Z;                    (* time.ParseDuration *)
  Unmarshal : string -> result (gmap string string)      (* json.Unmarshal *)
}.

(** ** strconv *)

Module strconv.

Inductive numError := Syntax | Range.

(** The digit loop of [ParseUint(s, 10, bitSize)] from the accumulator [n]. *)
Fixpoint digits (bitSize : Z) (s : string) (n : Z) : Z * option numError :=
  match s with
  | EmptyString => (n, None)
  | String c r =>
      let b := Z.of_N (code c) in
      if (48 <=? b) && (b <=? 57) then
        let maxVal := 2 ^ bitSize - 1 in
        if (2 ^ 64 - 1) / 10 + 1 <=? n then (maxVal, Some Range)
        else
          let n1 := n * 10 + (b - 48) in
          if (2 ^ 64 <=? n1) || (maxVal <? n1) then (maxVal, Some Range)
          else digits bitSize r n1
      else (0, Some Syntax)
  end.

Definition ParseUint (s : string) (bitSize : Z) : Z * option numError :=
  if String.eqb s EmptyString then (0, Some Syntax) else digits bitSize s 0.

(** [strconv.ParseInt(s, 10, bitSize)] for [0 < bitSize <= 64]. *)
Definition ParseInt (s0 : string) (bitSize : Z) : result Z :=
  match s0 with
  | EmptyString => Err (ErrSyntax "ParseInt" s0)
  | String c r =>
      let neg := eqc c "-" in
      let s := if eqc c "+" || eqc c "-" then r else s0 in
      match ParseUint s bitSize with
      | (_, Some Syntax) => Err (ErrSyntax "ParseInt" s0)
      | (un, _) =>
          let cutoff := 2 ^ (bitSize - 1) in
          if negb neg && (cutoff <=? un) then Err (ErrRange "ParseInt" s0)
          else if neg && (cutoff <? un) then Err (ErrRange "ParseInt" s0)
          else Ok (if neg then - un else un)
      end
  end.

Definition ParseBool (str : string) : result bool :=
  if existsb (String.eqb str) ["1"; "t"; "T"; "true"; "TRUE"; "True"]
  then Ok true
  else if existsb (String.eqb str) ["0"; "f"; "F"; "false"; "FALSE"; "False"]
  then Ok false
  else Err (ErrSyntax "ParseBool" str).

End strconv.

(** ** The record populator *)

(** The conversion [intN(x)] that [reflect.Value.SetInt] applies for a field
    of [bits] bits: the value is reduced modulo [2 ^ bits]. *)
Definition wrapInt (bits n : Z) : Z :=
  (n + 2 ^ (bits - 1)) mod 2 ^ bits - 2 ^ (bits - 1).

Fixpoint mapResult {A B : Type} (f : A -> result B) (l : list A)
    : result (list B) :=
  match l with
  | [] => Ok []
  | a :: rest => b ← f a; bs ← mapResult f rest; Ok (b :: bs)
  end.

(** [setValue]: the value stored in a field of type [t], an error, or a panic
    of [reflect.Value.Set]. *)
Fixpoint setValue (lib : Lib) (t : type) (value : string) : result Value :=
  match t with
  | StringT => Ok (VString value)
  | IntT k =>
      intVal ← strconv.ParseInt value 64;
      Ok (VInt (wrapInt (bitsOf k) intVal))
  | DurationT =>
      duration ← ParseDuration lib value;
      Ok (VInt duration)
  | BoolT =>
      boolVal ← strconv.ParseBool value;
      Ok (VBool boolVal)
  | SliceT elem =>
      elems ← mapResult (fun e => setValue lib elem (TrimSpace e))
                        (Split "," value);
      Ok (VSlice elems)
  | MapStringStringT =>
      m ← Unmarshal lib value;
      Ok (VMap m)
  | MapOtherT =>
      m ← Unmarshal lib value;
      Panic
  | StructT _ _ => Err (ErrUnsupported "struct")
  | OtherT kind => Err (ErrUnsupported kind)
  end.

Definition getValueFromEnvOrFile (os : OS) (tag : gmap string string)
    (envVars : gmap string string) : result string :=
  let envTag := TagGet tag "env" in
  if String.eqb envTag EmptyString then Ok EmptyString
  else
    match envVars !! envTag with
    | Some val => Ok val
    | None =>
        let val := Getenv os envTag in
        if negb (String.eqb val EmptyString) then Ok val
        else if String.eqb (TagGet tag "required") "true"
        then Err (ErrRequiredMissing envTag)
        else Ok (TagGet tag "default")
    end.

Definition fieldValues (v : Value) : list Value :=
  match v with
  | VStruct vs => vs
  | _ => []
  end.

(** [parseEnv] on a record with fields [fs] holding [vals]: the record as the
    call leaves it (fields before a failing one stay set) and the returned
    error, [Ok tt] being [nil].  The fields are exported, so that [reflect]
    may address and set them, and [vals] has one value per field. *)
Fixpoint parseEnv (lib : Lib) (os : OS) (envVars : gmap string string)
    (fs : structFields) (vals : list Value) : list Value * result unit :=
  match fs, vals with
  | Field name tag typ rest, v :: vs =>
      match typ with
      | StructT sub custom =>
          let '(subVals, err) := parseEnv lib os envVars sub (fieldValues v) in
          let v := VStruct subVals in
          match err with
          | Ok _ =>
              match custom with
              | Some customParser =>
                  match getValueFromEnvOrFile os tag envVars with
                  | Ok envValue =>
                      let '(v, err) := customParser envValue v in
                      match err with
                      | Ok _ =>
                          let '(vs, err) := parseEnv lib os envVars rest vs in
                          (v :: vs, err)
                      | _ => (v :: vs, err)
                      end
                  | Err err => (v :: vs, Err err)
                  | Panic => (v :: vs, Panic)
                  end
              | None =>
                  let '(vs, err) := parseEnv lib os envVars rest vs in
                  (v :: vs, err)
              end
          | _ => (v :: vs, err)
          end
      | _ =>
          match getValueFromEnvOrFile os tag envVars with
          | Ok envValue =>
              if String.eqb envValue EmptyString then
                let '(vs, err) := parseEnv lib os envVars rest vs in
                (v :: vs, err)
              else
                match setValue lib typ envValue with
                | Ok v =>
                    let '(vs, err) := parseEnv lib os envVars rest vs in
                    (v :: vs, err)
                | Err err => (v :: vs, Err (ErrSetField name err))
                | Panic => (v :: vs, Panic)
                end
          | Err err => (v :: vs, Err err)
          | Panic => (v :: vs, Panic)
          end
      end
  | _, _ => (vals, Ok tt)
  end.

(** [fillSpecification] for a target of type [T] holding [instance];
    [reflect]'s [NumField] panics when [T] is not a record type. *)
Definition fillSpecification (lib : Lib) (os : OS) (T : type)
    (instance : Value) (paths : list string) : Value * result unit :=
  match loadPaths os paths ∅ with
  | Ok envVars =>
      match T with
      | StructT fs _ =>
          let '(vals, err) := parseEnv lib os envVars fs (fieldValues instance) in
          (VStruct vals,
           match err with
           | Err err => Err (ErrFieldLoad err)
           | other => other
           end)
      | _ => (instance, Panic)
      end
  | Err err => (instance, Err err)
  | Panic => (instance, Panic)
  end.

(** ** The entry point, one per build *)

(** How a call of [RegisterEnvironment] ends: it returns with the record as
    populated, or [log.Fatalf] prints the error and ends the process, or the
    call panics. *)
Inductive outcome :=
| Returns (instance : Value)
| Exits (message : string)
| Panics.

(** [if err := ...; err != nil { log.Fatalf("%v", err) }] *)
Definition fatalOnError (r : Value * result unit) : outcome :=
  match r with
  | (instance, Ok _) => Returns instance
  | (_, Err err) => Exits (Error err)
  | (_, Panic) => Panics
  end.

(** Build tag [development]. *)
Module development.

Definition defaultEnvironmentFile : string := ".env".

Definition RegisterEnvironment (lib : Lib) (os : OS) (T : type)
    (instance : Value) : outcome :=
  fatalOnError (fillSpecification lib os T instance [defaultEnvironmentFile]).

End development.

(** Build tag [!development]. *)
Module production.

Definition RegisterEnvironment (lib : Lib) (os : OS) (T : type)
    (instance : Value) : outcome :=
  fatalOnError (fillSpecification lib os T instance []).

End production.

(** ** Auxiliary notions of the statements *)

(** No dollar sign in [s]: no reference starts in it. *)
Fixpoint noDollar (s : string) : bool :=
  match s with
  | EmptyString => true
  | String c r => negb (eqc c "$") && noDollar r
  end.

(** The logical line that a physical line completes: the buffered text comes
    first while a continuation is pending. *)
Definition logicalLine (st : scanState) (line : string) : string :=
  if multiline st then buffer st +:+ line else line.

Definition bufferAfter (st : scanState) : string :=
  if multiline st then EmptyString else buffer st.

Definition isRecord (t : type) : bool :=
  match t with
  | StructT _ _ => true
  | _ => false
  end.

(** Neither the file mapping nor the process environment yields a value for
    the source name [envTag]: the mapping has no such key, and the variable
    is unset or set to the empty string. *)
Definition unresolved (os : OS) (envVars : gmap string string)
    (envTag : string) : Prop :=
  envVars !! envTag = None /\ Getenv os envTag = EmptyString.

(** No backslash in [s]: no escape sequence in it. *)
Fixpoint noBackslash (s : string) : bool :=
  match s with
  | EmptyString => true
  | String c r => negb (eqc c "\") && noBackslash r
  end.

(** The first test of the scanning loop: the line is empty after trimming or
    a comment. *)
Definition isSkipped (text : string) : bool :=
  String.eqb (TrimSpace text) EmptyString || HasPrefix (TrimSpace text) "#".

(** The second test: the trimmed line ends in a backslash. *)
Definition isContinued (text : string) : bool :=
  HasSuffix (TrimSpace text) "\".

(** The fields [fs] followed by the fields [gs]. *)
Fixpoint appFields (fs gs : structFields) : structFields :=
  match fs with
  | NoFields => gs
  | Field name tag typ rest => Field name tag typ (appFields rest gs)
  end.

(** [NumField] *)
Fixpoint numFields (fs : structFields) : nat :=
  match fs with
  | NoFields => 0
  | Field _ _ _ rest => S (numFields rest)
  end.

(** Occurrences of the byte [sep] in [s]. *)
Fixpoint countByte (sep : ascii) (s : string) : nat :=
  match s with
  | EmptyString => 0
  | String c r => (if eqc c sep then 1 else 0) + countByte sep r
  end.

(** The entries of a file's mapping in some order of iteration, assigned one
    by one as the [range] loop of [fillSpecification] does. *)
Definition assignAll (entries : list (string * string))
    (envVars : gmap string string) : gmap string string :=
  foldl (fun acc kv => <[kv.1 := kv.2]> acc) envVars entries.

(** Every key of [m] matches the identifier pattern. *)
Definition keysValid (m : gmap string string) : Prop :=
  forall k, is_Some (m !! k) -> validEnvVarRegex k = true.

(** ** Hosts and record shapes of the closed examples *)

Module Examples.

Definition missing : os_error :=
  OsError true "open: no such file or directory".

(** No file at all and an empty process environment. *)
Definition bare : OS := MkOS (fun p => p) (fun _ => inr missing) ∅.

(** Two files, [a.env] defining [X] and [b.env] referring to it; their
    names are clean paths already. *)
Definition twoFiles : OS :=
  MkOS (fun p => p)
       (fun p =>
          if String.eqb p "a.env" then inl (File ["X=foo"] None)
          else if String.eqb p "b.env" then inl (File ["Y=${X}bar"] None)
          else inr missing)
       ∅.

(** The records of the examples have no duration and no map field, so the
    library conversions are never reached; this one rejects its input. *)
Definition noConversions : Lib :=
  MkLib (fun s => Err (ErrLibrary ("time: invalid duration " +:+ s)))
        (fun _ => Err (ErrLibrary "unexpected end of JSON input")).

End Examples.

Module Shapes.

(** [DB struct{ Host string `env:"DB_HOST"` } `env:"DB" required:"true"`],
    a nested record without a [ParseEnv] method. *)
Definition dbTag : gmap string string :=
  {[ "env" := "DB"; "required" := "true" ]}.

Definition db : structFields :=
  Field "DB" dbTag
        (StructT (Field "Host" {[ "env" := "DB_HOST" ]} StringT NoFields) None)
        NoFields.

(** [Port int8 `env:"PORT"`] *)
Definition port : structFields :=
  Field "Port" {[ "env" := "PORT" ]} (IntT Int8) NoFields.

(** A capability that rejects the empty string and otherwise stores the
    raw value in the record's only field. *)
Definition endpoint : CustomParser := fun raw v =>
  if String.eqb raw EmptyString
  then (v, Err (ErrCustom "endpoint: empty value"))
  else (VStruct [VString raw], Ok tt).

(** [API Endpoint `env:"API"`], where [*Endpoint] has a [ParseEnv] method
    and [Endpoint] is [struct{ URL string }]. *)
Definition api : structFields :=
  Field "API" {[ "env" := "API" ]}
        (StructT (Field "URL" ∅ StringT NoFields) (Some endpoint))
        NoFields.

(** [Name string `env:"NAME" required:"true"`] *)
Definition name : structFields :=
  Field "Name" {[ "env" := "NAME"; "required" := "true" ]} StringT NoFields.

End Shapes.

(** * Properties *)

(** ** The package's own tests, replayed on the model *)

Example TestProcessValue :
  processValue (String dquote ("quoted value" +:+ String dquote EmptyString))
    = Some "quoted value"
  /\ processValue "'another quoted value'" = Some "another quoted value"
  /\ processValue "escaped\nvalue"
     = Some ("escaped" +:+ String (chr 10) "value")
  /\ processValue "escaped\tvalue"
     = Some ("escaped" +:+ String (chr 9) "value")
  /\ processValue EmptyString = Some EmptyString
  /\ processValue "a\\b" = Some "a\b"
  /\ processValue "'a b" = Some "'a b".
Proof. repeat split; reflexivity. Qed.

Example TestTrimSpace :
  TrimSpace "  x ab  " = "x ab"
  /\ TrimSpace (String (chr 9) ("k = v" +:+ String (chr 13) EmptyString)) = "k = v"
  /\ TrimSpace (String (chr 194) (String (chr 160) "x")) = "x"
  /\ TrimSpace "   " = EmptyString.
Proof. repeat split; reflexivity. Qed.

Example TestExpandEnvVars :
  let os := MkOS (fun p => p) (fun _ => inr (OsError true "missing"))
                 {[ "EXISTING_ENV_VAR" := "existing_env_value" ]} in
  let envVars : gmap string string := {[ "EXISTING_VAR" := "existing_value" ]} in
  expandEnvVars os "${EXISTING_VAR}" envVars = "existing_value"
  /\ expandEnvVars os "${EXISTING_ENV_VAR}" envVars = "existing_env_value"
  /\ expandEnvVars os "${NON_EXISTENT_VAR}" envVars = "${NON_EXISTENT_VAR}"
  /\ expandEnvVars os "no vars" envVars = "no vars"
  /\ expandEnvVars os "$${EXISTING_VAR}${1X}${" envVars = "$existing_value${1X}${".
Proof. repeat split; vm_compute; reflexivity. Qed.

Example TestLoadEnv :
  loadEnv (MkOS (fun p => p)
                (fun _ => inl (File ["TEST_KEY=test_value";
                                     "ANOTHER_KEY=another_value"] None))
                ∅)
          "test.env"
  = Ok {[ "TEST_KEY" := "test_value"; "ANOTHER_KEY" := "another_value" ]}.
Proof. vm_compute. reflexivity. Qed.

Example TestSetValue (lib : Lib) :
  ParseDuration lib "1h" = Ok 3600000000000 ->
  setValue lib StringT "test" = Ok (VString "test")
  /\ setValue lib (IntT Int) "42" = Ok (VInt 42)
  /\ setValue lib DurationT "1h" = Ok (VInt 3600000000000)
  /\ setValue lib BoolT "true" = Ok (VBool true)
  /\ setValue lib (SliceT StringT) "a, b,c"
     = Ok (VSlice [VString "a"; VString "b"; VString "c"]).
Proof.
  intros H. repeat split; try reflexivity. cbn [setValue]. by rewrite H.
Qed.

Example TestParseEnv (lib : Lib) (os : OS) :
  ParseDuration lib "1h" = Ok 3600000000000 ->
  environ os = ∅ ->
  parseEnv lib os
    {[ "TEST_KEY" := "test_value"; "ANOTHER_KEY" := "42"; "DURATION" := "1h";
       "REQUIRED" := "required_value" ]}
    (Field "TestKey" {[ "env" := "TEST_KEY" ]} StringT
       (Field "AnotherKey" {[ "env" := "ANOTHER_KEY" ]} (IntT Int)
          (Field "Duration" {[ "env" := "DURATION" ]} DurationT
             (Field "Optional" {[ "env" := "OPTIONAL"; "default" := "default_value" ]}
                    StringT
                (Field "Required" {[ "env" := "REQUIRED"; "required" := "true" ]}
                       StringT NoFields)))))
    [VString EmptyString; VInt 0; VInt 0; VString EmptyString; VString EmptyString]
  = ([VString "test_value"; VInt 42; VInt 3600000000000;
      VString "default_value"; VString "required_value"], Ok tt).
Proof.
  intros Hd Henv. destruct os as [cl op en]. simpl in Henv. subst en.
  destruct lib as [pd um]. simpl in Hd.
  vm_compute. rewrite Hd. reflexivity.
Qed.

(** ** Merging *)

Lemma mergeVars_union (fileVars envVars : gmap string string) :
  mergeVars fileVars envVars = fileVars ∪ envVars.
Proof.
  unfold mergeVars.
  induction fileVars as [|k v m Hk Hfold IH] using map_first_key_ind.
  - rewrite map_fold_empty. by rewrite (left_id_L ∅ (∪)).
  - rewrite map_fold_insert_first_key by done.
    rewrite IH. by rewrite insert_union_l.
Qed.

Lemma union_twice (m acc : gmap string string) : m ∪ (m ∪ acc) = m ∪ acc.
Proof. by rewrite (assoc_L (∪)), (idemp_L (∪)). Qed.

(** ** Expansion *)

Section Expansion.

Variable repl : string -> string.

Lemma spanWord_length (s w t : string) :
  spanWord s = (w, t) -> String.length s = (String.length w + String.length t)%nat.
Proof.
  revert w t. induction s as [|c r IH]; intros w t; simpl.
  - intros [= <- <-]. reflexivity.
  - destruct (isWord c).
    + destruct (spanWord r) as [w' t'] eqn:E. intros [= <- <-].
      simpl. f_equal. by apply IH.
    + intros [= <- <-]. reflexivity.
Qed.

Lemma envVarRegex_shorter (s name rest : string) :
  envVarRegex s = Some (name, rest) ->
  (String.length rest < String.length s)%nat.
Proof.
  destruct s as [|d [|o [|c r]]]; simpl; try discriminate.
  destruct (eqc d "$" && eqc o "{" && isLetter c); [|discriminate].
  destruct (spanWord r) as [w t] eqn:E.
  apply spanWord_length in E.
  destruct t as [|e t']; [discriminate|].
  destruct (eqc e "}"); [|discriminate].
  intros [= <- <-]. simpl in E. lia.
Qed.

Lemma replaceAllRefs_fuel (n m : nat) (s : string) :
  (String.length s < n)%nat -> (String.length s < m)%nat ->
  replaceAllRefs n repl s = replaceAllRefs m repl s.
Proof.
  revert m s. induction n as [|n IH]; intros m s Hn Hm; [lia|].
  destruct m as [|m]; [lia|]. simpl.
  destruct (envVarRegex s) as [[name rest]|] eqn:E.
  - apply envVarRegex_shorter in E. f_equal. apply IH; lia.
  - destruct s as [|c r]; [reflexivity|]. simpl in Hn, Hm.
    f_equal. apply IH; lia.
Qed.

Lemma replaceAllRefs_S (n : nat) (s : string) :
  replaceAllRefs (S n) repl s =
  match envVarRegex s with
  | Some (name, rest) => repl name +:+ replaceAllRefs n repl rest
  | None =>
      match s with
      | EmptyString => EmptyString
      | String c r => String c (replaceAllRefs n repl r)
      end
  end.
Proof. reflexivity. Qed.

Lemma replaceAllRefs_unfold (s : string) :
  replaceAllRefs (S (String.length s)) repl s =
  match envVarRegex s with
  | Some (name, rest) =>
      repl name +:+ replaceAllRefs (S (String.length rest)) repl rest
  | None =>
      match s with
      | EmptyString => EmptyString
      | String c r => String c (replaceAllRefs (S (String.length r)) repl r)
      end
  end.
Proof.
  etransitivity; [apply replaceAllRefs_S|].
  destruct (envVarRegex s) as [[name rest]|] eqn:E.
  - apply envVarRegex_shorter in E. f_equal. apply replaceAllRefs_fuel; lia.
  - destruct s as [|c r]; reflexivity.
Qed.

End Expansion.

Lemma expandEnvVars_unfold (os : OS) (s : string) (m : gmap string string) :
  expandEnvVars os s m =
  match envVarRegex s with
  | Some (name, rest) => expandRef os m name +:+ expandEnvVars os rest m
  | None =>
      match s with
      | EmptyString => EmptyString
      | String c r => String c (expandEnvVars os r m)
      end
  end.
Proof. unfold expandEnvVars. apply replaceAllRefs_unfold. Qed.

Lemma append_assoc (a b c : string) : a +:+ b +:+ c = (a +:+ b) +:+ c.
Proof. induction a as [|x a IH]; simpl; [reflexivity|]. by rewrite IH. Qed.

Lemma append_nil_r (a : string) : a +:+ EmptyString = a.
Proof. induction a as [|x a IH]; simpl; [reflexivity|]. by rewrite IH. Qed.

Lemma spanWord_stop (w rest : string) :
  allWord w = true -> spanWord (w +:+ String "}" rest) = (w, String "}" rest).
Proof.
  induction w as [|c r IH]; simpl; [reflexivity|].
  intros [Hc Hr]%andb_prop. rewrite Hc, (IH Hr). reflexivity.
Qed.

Lemma envVarRegex_reference (name rest : string) :
  validEnvVarRegex name = true -> envVarRegex (reference name +:+ rest) = Some (name, rest).
Proof.
  destruct name as [|c w]; [discriminate|]. simpl.
  intros [Hc Hw]%andb_prop. rewrite Hc.
  rewrite <- append_assoc. cbn [String.append].
  rewrite (spanWord_stop _ _ Hw). reflexivity.
Qed.

(** No match of [envVarRegex] starts at a byte other than the dollar sign. *)
Lemma envVarRegex_not_dollar (c : ascii) (s : string) :
  eqc c "$" = false -> envVarRegex (String c s) = None.
Proof.
  intros Hc. destruct s as [|o [|c' r]]; simpl; try reflexivity.
  by rewrite Hc.
Qed.

Lemma expandEnvVars_reference (os : OS) (m : gmap string string)
    (pre name rest : string) :
  noDollar pre = true -> validEnvVarRegex name = true ->
  expandEnvVars os (pre +:+ reference name +:+ rest) m =
  pre +:+ expandRef os m name +:+ expandEnvVars os rest m.
Proof.
  intros Hpre Hname. induction pre as [|c r IH].
  - cbn [String.append]. rewrite expandEnvVars_unfold.
    by rewrite envVarRegex_reference.
  - simpl in Hpre. apply andb_prop in Hpre as [Hc Hr].
    apply negb_true_iff in Hc.
    cbn [String.append]. rewrite expandEnvVars_unfold.
    rewrite (envVarRegex_not_dollar _ _ Hc). by rewrite (IH Hr).
Qed.

(** ** The scanning loop *)

Lemma scanLine_assign (os : OS) (st : scanState) (text k v value : string) :
  String.eqb (TrimSpace text) EmptyString || HasPrefix (TrimSpace text) "#" = false ->
  HasSuffix (TrimSpace text) "\" = false ->
  cut "=" (logicalLine st (TrimSpace text)) = Some (k, v) ->
  validEnvVarRegex (TrimSpace k) = true ->
  processValue (TrimSpace v) = Some value ->
  scanLine os st text =
  Ok (ScanState (<[TrimSpace k := expandEnvVars os value (envVars st)]> (envVars st))
                (bufferAfter st) false).
Proof.
  intros Hskip Hcont Hcut Hkey Hval. unfold scanLine, logicalLine in *.
  rewrite Hskip, Hcont, Hcut, Hkey, Hval. reflexivity.
Qed.

Lemma scanLines_app (os : OS) (st : scanState) (l1 l2 : list string) :
  scanLines os st (l1 ++ l2) = (st' ← scanLines os st l1; scanLines os st' l2).
Proof.
  revert st. induction l1 as [|text l1 IH]; intros st; simpl; [reflexivity|].
  destruct (scanLine os st text); simpl; auto.
Qed.

Lemma loadPaths_snoc (os : OS) (paths : list string) (path : string)
    (acc : gmap string string) :
  loadPaths os (paths ++ [path]) acc =
  (m ← loadPaths os paths acc;
   match loadEnv os path with
   | Ok fileVars => Ok (fileVars ∪ m)
   | Err err => Err (ErrLoading err)
   | Panic => Panic
   end).
Proof.
  revert acc. induction paths as [|p paths IH]; intros acc; simpl.
  - destruct (loadEnv os path); simpl; try reflexivity.
    by rewrite mergeVars_union.
  - destruct (loadEnv os p); simpl; auto.
Qed.

(** ** C1 *)




(** ** C6 *)

Lemma expandRef_file (os : OS) (m : gmap string string) (name val : string) :
  m !! name = Some val -> expandRef os m name = val.
Proof. unfold expandRef. by intros ->. Qed.

Lemma expandRef_literal (os : OS) (m : gmap string string) (name : string) :
  m !! name = None -> environ os !! name = None ->
  expandRef os m name = reference name.
Proof. unfold expandRef, LookupEnv. by intros -> ->. Qed.

Lemma expand_X_bar (os : OS) (m : gmap string string) :
  m !! "X" = Some "foo" -> expandEnvVars os "${X}bar" m = "foobar".
Proof.
  intros H.
  change "${X}bar" with (EmptyString +:+ reference "X" +:+ "bar").
  rewrite expandEnvVars_reference by reflexivity.
  by rewrite (expandRef_file os m "X" "foo" H).
Qed.

Lemma expand_undefined (os : OS) (name : string) (m : gmap string string) :
  validEnvVarRegex name = true ->
  m !! name = None -> environ os !! name = None ->
  expandEnvVars os (reference name) m = reference name.
Proof.
  intros Hname Hm Henv.
  rewrite <- (append_nil_r (reference name)) at 1.
  change (reference name +:+ EmptyString)
    with (EmptyString +:+ reference name +:+ EmptyString).
  rewrite expandEnvVars_reference by (reflexivity || exact Hname).
  rewrite (expandRef_literal os m name Hm Henv).
  change (expandEnvVars os EmptyString m) with EmptyString.
  cbn [String.append]. apply append_nil_r.
Qed.



(** ** C3 *)

(** C3, as the code has it: a line starting with [#] that arrives while a
    continuation is pending is dropped and the continuation stays pending,
    so [A] ends as [12]; were the line part of the logical line, [A] would
    be [1#x2]. *)
Lemma comment_inside_continuation_is_dropped :
  scanLines Examples.bare scanInit ["A=1\"; "#x"; "2"]
  = Ok (ScanState {[ "A" := "12" ]} EmptyString false)
  /\ scanLines Examples.bare scanInit ["A=1\"; "#x"; "2"]
     <> Ok (ScanState {[ "A" := "1#x2" ]} EmptyString false)
  /\ scanLine Examples.bare (ScanState ∅ "A=1" true) "#x"
     = Ok (ScanState ∅ "A=1" true).
Proof.
  split; [vm_compute; reflexivity | split].
  - vm_compute. discriminate.
  - vm_compute. reflexivity.
Qed.

(** C3 (amended): every line that is empty after trimming or whose trimmed
    text starts with [#] is skipped, whether or not a continuation is being
    accumulated: the mapping, the buffered text and the pending continuation
    are all left as they were. *)
Theorem blank_and_comment_lines_skipped (os : OS) (st : scanState)
    (text : string) :
  TrimSpace text = EmptyString \/ HasPrefix (TrimSpace text) "#" = true ->
  scanLine os st text = Ok st.
Proof.
  intros H. unfold scanLine.
  destruct H as [-> | ->]; [reflexivity|].
  by rewrite orb_true_r.
Qed.

Lemma blank_and_comment_lines_skipped_witness :
  scanLine Examples.bare (ScanState {[ "K" := "v" ]} "A=1" true) "  # note \"
  = Ok (ScanState {[ "K" := "v" ]} "A=1" true).
Proof.
  apply (blank_and_comment_lines_skipped Examples.bare
           (ScanState {[ "K" := "v" ]} "A=1" true) "  # note \").
  right. reflexivity.
Defined.

(** ** C7 *)

Lemma scanLine_error (os : OS) (st : scanState) (text : string) (e : error) :
  scanLine os st text = Err e -> exists key, e = ErrInvalidName key.
Proof.
  unfold scanLine.
  destruct (String.eqb (TrimSpace text) EmptyString || HasPrefix (TrimSpace text) "#");
    [discriminate|].
  destruct (HasSuffix (TrimSpace text) "\"); [discriminate|].
  destruct (cut "=" _) as [[k v]|]; [|discriminate].
  destruct (validEnvVarRegex (TrimSpace k)); simpl.
  - destruct (processValue (TrimSpace v)); discriminate.
  - intros [= <-]. eauto.
Qed.

Lemma scanLines_error (os : OS) (ls : list string) (st : scanState) (e : error) :
  scanLines os st ls = Err e -> exists key, e = ErrInvalidName key.
Proof.
  revert st. induction ls as [|text ls IH]; intros st; simpl; [discriminate|].
  destruct (scanLine os st text) as [st'| e' |] eqn:E; simpl.
  - apply IH.
  - intros [= <-]. eapply scanLine_error, E.
  - discriminate.
Qed.

(** C7: [loadEnv] returns the "does not exist" error exactly when opening the
    file fails with an error that is [os.ErrNotExist]; the error then carries
    the path as it was given, and its text is the path followed by
    [" does not exist"].  Any other failure of the open, and a failure while
    reading, comes back as the underlying error, which is a different one. *)
Theorem missing_file_error_is_distinct (os : OS) (filename : string) :
  (forall path, loadEnv os filename = Err (ErrDoesNotExist path) <->
     path = filename /\
     exists err, Open os (Clean os filename) = inr err /\ not_exist err = true)
  /\ Error (ErrDoesNotExist filename) = filename +:+ " does not exist"
  /\ (forall err, Open os (Clean os filename) = inr err -> not_exist err = false ->
        loadEnv os filename = Err (ErrOs err))
  /\ (forall f err st, Open os (Clean os filename) = inl f ->
        scanLines os scanInit (lines f) = Ok st -> scanErr f = Some err ->
        loadEnv os filename = Err (ErrOs err))
  /\ (forall err, ErrOs err <> ErrDoesNotExist filename).
Proof.
  split; [|split; [reflexivity|split; [|split]]].
  - intros path. unfold loadEnv.
    destruct (Open os (Clean os filename)) as [f|err] eqn:E.
    + split.
      * destruct (scanLines os scanInit (lines f)) as [st|e|] eqn:Es; simpl.
        -- destruct (scanErr f); discriminate.
        -- intros [= ->]. apply scanLines_error in Es as [key Hk]. discriminate.
        -- discriminate.
      * intros [_ (err & Herr & _)]. discriminate.
    + destruct (not_exist err) eqn:En; split.
      * intros [= <-]. eauto.
      * intros [-> _]. reflexivity.
      * discriminate.
      * intros [_ (err' & [= <-] & Hn)]. congruence.
  - intros err E En. unfold loadEnv. by rewrite E, En.
  - intros f err st E Es Ee. unfold loadEnv. by rewrite E, Es; simpl; rewrite Ee.
  - discriminate.
Qed.

(** ** C8 *)

(** C8: loading the same file twice and merging gives what loading it once
    gives, whatever was merged before, and the same failure when the file
    cannot be loaded; so the whole call populates the record alike. *)
Theorem loading_twice_is_loading_once (lib : Lib) (os : OS) (path : string)
    (acc : gmap string string) (T : type) (instance : Value) :
  loadPaths os [path; path] acc = loadPaths os [path] acc
  /\ (forall m, loadEnv os path = Ok m -> mergeVars m (mergeVars m acc) = mergeVars m acc)
  /\ fillSpecification lib os T instance [path; path]
     = fillSpecification lib os T instance [path].
Proof.
  assert (H : forall a, loadPaths os [path; path] a = loadPaths os [path] a).
  { intros a. simpl. destruct (loadEnv os path) as [m|e|]; try reflexivity.
    by rewrite !mergeVars_union, union_twice. }
  split; [apply H | split].
  - intros m _. by rewrite !mergeVars_union, union_twice.
  - unfold fillSpecification. by rewrite H.
Qed.

(** ** C9 *)

Lemma replaceEscapes_nonempty (c : ascii) (s : string) :
  exists d r, replaceEscapes (String c s) = String d r.
Proof.
  destruct s as [|d s]; cbn [replaceEscapes]; [eauto|].
  destruct (eqc c "\"); [|eauto].
  repeat (match goal with |- context [if ?b then _ else _] => destruct b end;
          [eauto|]).
  eauto.
Qed.

Lemma replaceEscapes_step (c d : ascii) (r : string) :
  replaceEscapes (String c (String d r)) =
  if eqc c "\" then
    if eqc d "n" then String (chr 10) (replaceEscapes r)
    else if eqc d "t" then String (chr 9) (replaceEscapes r)
    else if eqc d "r" then String (chr 13) (replaceEscapes r)
    else if eqc d "\" then String "\" (replaceEscapes r)
    else String c (replaceEscapes (String d r))
  else String c (replaceEscapes (String d r)).
Proof. reflexivity. Qed.

Lemma replaceEscapes_single (value : string) (d : ascii) :
  replaceEscapes value = String d EmptyString ->
  value = String d EmptyString \/ isQuote d = false.
Proof.
  destruct value as [|c [|e r]]; [discriminate | |].
  - intros [= <-]. by left.
  - rewrite replaceEscapes_step.
    assert (Hr : forall x, String x (replaceEscapes r) = String d EmptyString ->
                           isQuote x = false -> isQuote d = false).
    { intros x [= <- _] Hx. exact Hx. }
    assert (Hne : forall x, String x (replaceEscapes (String e r))
                            <> String d EmptyString).
    { intros x H. destruct (replaceEscapes_nonempty e r) as (y & t & Hy).
      rewrite Hy in H. discriminate. }
    destruct (eqc c "\"); [|intros H; by apply Hne in H].
    destruct (eqc e "n"); [intros H; right; by apply (Hr _ H)|].
    destruct (eqc e "t"); [intros H; right; by apply (Hr _ H)|].
    destruct (eqc e "r"); [intros H; right; by apply (Hr _ H)|].
    destruct (eqc e "\"); [intros H; right; by apply (Hr _ H)|].
    intros H; by apply Hne in H.
Qed.

Lemma index_last (c : ascii) (s : string) :
  exists l, index (String c s) (len (String c s) - 1) = Some l
            /\ (s = EmptyString -> l = c).
Proof.
  unfold index, len.
  replace (Z.of_nat (String.length (String c s)) - 1)
    with (Z.of_nat (String.length s)) by (simpl; lia).
  rewrite Nat2Z.id.
  rewrite (proj2 (Z.leb_le _ _)) by lia.
  rewrite (proj2 (Z.ltb_lt _ _)) by (simpl; lia).
  cbn [andb].
  revert c. induction s as [|d s IH]; intros c.
  - exists c. split; reflexivity.
  - destruct (IH d) as (l & Hl & _). exists l. split; [exact Hl|discriminate].
Qed.

(** What [processValue] does on a value that is not empty, in terms of the
    text after the escapes are replaced. *)
Lemma processValue_cases (value : string) (c : ascii) (r : string) :
  value <> EmptyString ->
  replaceEscapes value = String c r ->
  exists l, (r = EmptyString -> l = c) /\
    processValue value =
      if isQuote c && eqc l c
      then slice (String c r) 1 (len (String c r) - 1)
      else Some (String c r).
Proof.
  intros Hne Hrep. destruct (index_last c r) as (l & Hl & Hc).
  exists l. split; [exact Hc|].
  unfold processValue.
  destruct (String.eqb value EmptyString) eqn:E.
  - apply String.eqb_eq in E. contradiction.
  - rewrite Hrep.
    assert (H0 : index (String c r) 0 = Some c).
    { unfold index. change (0 <=? 0) with true.
      rewrite (proj2 (Z.ltb_lt 0 (len (String c r)))) by (unfold len; simpl; lia).
      reflexivity. }
    rewrite H0. cbn [mbind option_bind].
    destruct (isQuote c); [|reflexivity].
    rewrite Hl. reflexivity.
Qed.

Lemma slice_tail (c : ascii) (r : string) :
  slice (String c r) 1 (len (String c r) - 1) = None <-> r = EmptyString.
Proof.
  unfold slice, len. destruct r as [|d r].
  - split; reflexivity.
  - split; [|discriminate].
    change (0 <=? 1) with true.
    rewrite (proj2 (Z.leb_le 1 _)) by (simpl; lia).
    rewrite (proj2 (Z.leb_le _ _)) by lia. discriminate.
Qed.

Lemma eqc_refl (c : ascii) : eqc c c = true.
Proof. apply Ascii.eqb_refl. Qed.

(** C9, as the code has it: [processValue] panics on exactly two inputs, the
    one-byte values made of a double or of a single quote (the slice
    [value[1 : len(value)-1]] is then [value[1:0]]); on every other input it
    returns.  A line that assigns such a value makes [loadEnv] panic. *)
Theorem processValue_panics_on_lone_quote (os : OS) (value : string) :
  (processValue value = None <->
     value = String dquote EmptyString \/ value = "'")
  /\ scanLine os scanInit (String "A" (String "=" (String dquote EmptyString)))
     = Panic
  /\ scanLine os scanInit "A='" = Panic.
Proof.
  split; [|split; reflexivity].
  destruct value as [|c s].
  { split; [discriminate | intros [H|H]; discriminate]. }
  destruct (replaceEscapes_nonempty c s) as (d & r & Hrep).
  destruct (processValue_cases (String c s) d r ltac:(discriminate) Hrep)
    as (l & Hl & ->).
  split.
  - destruct (isQuote d && eqc l d) eqn:E; [|discriminate].
    intros ->%slice_tail. apply andb_prop in E as [Hq _].
    destruct (replaceEscapes_single _ _ Hrep) as [-> | Hn]; [|congruence].
    unfold isQuote in Hq. apply orb_prop in Hq as [Hq|Hq];
      apply Ascii.eqb_eq in Hq; subst d; auto.
  - intros Hv.
    assert (Hd : d = c /\ r = EmptyString /\ isQuote c = true).
    { destruct Hv as [[= -> ->] | [= -> ->]]; cbn in Hrep;
        injection Hrep as <- <-; auto. }
    destruct Hd as (-> & -> & Hq). rewrite (Hl eq_refl), Hq, eqc_refl.
    reflexivity.
Qed.

(** ** The populator, field by field *)

(** A field that is not a nested record. *)
Lemma parseEnv_scalar (lib : Lib) (os : OS) (envVars : gmap string string)
    (name : string) (tag : gmap string string) (typ : type)
    (rest : structFields) (v : Value) (vs : list Value) :
  isRecord typ = false ->
  parseEnv lib os envVars (Field name tag typ rest) (v :: vs) =
  match getValueFromEnvOrFile os tag envVars with
  | Ok envValue =>
      if String.eqb envValue EmptyString then
        let '(vs', err) := parseEnv lib os envVars rest vs in (v :: vs', err)
      else
        match setValue lib typ envValue with
        | Ok v' =>
            let '(vs', err) := parseEnv lib os envVars rest vs in (v' :: vs', err)
        | Err err => (v :: vs, Err (ErrSetField name err))
        | Panic => (v :: vs, Panic)
        end
  | Err err => (v :: vs, Err err)
  | Panic => (v :: vs, Panic)
  end.
Proof. destruct typ; (reflexivity || discriminate). Qed.

(** A nested record with the capability, once its own fields are populated. *)
Lemma parseEnv_capability (lib : Lib) (os : OS) (envVars : gmap string string)
    (name : string) (tag : gmap string string) (sub : structFields)
    (customParser : CustomParser) (rest : structFields) (v : Value)
    (vs subVals : list Value) :
  parseEnv lib os envVars sub (fieldValues v) = (subVals, Ok tt) ->
  parseEnv lib os envVars (Field name tag (StructT sub (Some customParser)) rest)
           (v :: vs) =
  match getValueFromEnvOrFile os tag envVars with
  | Ok envValue =>
      let '(v', err) := customParser envValue (VStruct subVals) in
      match err with
      | Ok _ =>
          let '(vs', err) := parseEnv lib os envVars rest vs in (v' :: vs', err)
      | _ => (v' :: vs, err)
      end
  | Err err => (VStruct subVals :: vs, Err err)
  | Panic => (VStruct subVals :: vs, Panic)
  end.
Proof. intros H. cbn [parseEnv]. rewrite H. reflexivity. Qed.

Lemma getValue_unresolved (os : OS) (tag envVars : gmap string string) :
  String.eqb (TagGet tag "env") EmptyString = false ->
  unresolved os envVars (TagGet tag "env") ->
  getValueFromEnvOrFile os tag envVars =
  if String.eqb (TagGet tag "required") "true"
  then Err (ErrRequiredMissing (TagGet tag "env"))
  else Ok (TagGet tag "default").
Proof.
  intros Htag [Hfile Henv]. unfold getValueFromEnvOrFile.
  rewrite Htag, Hfile, Henv. reflexivity.
Qed.

(** ** C5 *)

(** C5, as the code has it: a nested record without the capability carries a
    source name and is marked required, nothing defines the variable, and
    population succeeds; the field's metadata is never looked at, though
    resolving it would report the missing variable. *)
Lemma required_plain_record_is_not_enforced :
  parseEnv Examples.noConversions Examples.bare ∅ Shapes.db
           [VStruct [VString EmptyString]]
  = ([VStruct [VString EmptyString]], Ok tt)
  /\ getValueFromEnvOrFile Examples.bare Shapes.dbTag ∅
     = Err (ErrRequiredMissing "DB").
Proof. split; vm_compute; reflexivity. Qed.

(** C5 (amended): for every field carrying a source name whose value the
    populator resolves, that is every field that is not a nested record and
    every nested record exposing the capability once its own fields are
    populated: if the field is marked required and neither the file mapping
    nor the process environment yields a value, population stops with the
    error naming the source variable; if it is not required, the default
    string of its metadata is the resolved value and is used in its place
    (converted and stored when not empty, or handed to the capability). *)
Theorem required_and_default_of_resolved_fields (lib : Lib) (os : OS)
    (envVars : gmap string string) (name : string) (tag : gmap string string)
    (typ : type) (rest : structFields) (v : Value) (vs : list Value) :
  String.eqb (TagGet tag "env") EmptyString = false ->
  unresolved os envVars (TagGet tag "env") ->
  let envTag := TagGet tag "env" in
  let dflt := TagGet tag "default" in
  let populate := parseEnv lib os envVars (Field name tag typ rest) (v :: vs) in
  (if String.eqb (TagGet tag "required") "true" then
     getValueFromEnvOrFile os tag envVars = Err (ErrRequiredMissing envTag)
     /\ Error (ErrRequiredMissing envTag)
        = "required environment variable " +:+ envTag +:+ " is missing"
     /\ (isRecord typ = false ->
         populate = (v :: vs, Err (ErrRequiredMissing envTag)))
     /\ (forall sub customParser subVals,
           typ = StructT sub (Some customParser) ->
           parseEnv lib os envVars sub (fieldValues v) = (subVals, Ok tt) ->
           populate = (VStruct subVals :: vs, Err (ErrRequiredMissing envTag)))
   else
     getValueFromEnvOrFile os tag envVars = Ok dflt
     /\ (isRecord typ = false ->
         populate =
           if String.eqb dflt EmptyString then
             let '(vs', err) := parseEnv lib os envVars rest vs in (v :: vs', err)
           else
             match setValue lib typ dflt with
             | Ok v' =>
                 let '(vs', err) := parseEnv lib os envVars rest vs in
                 (v' :: vs', err)
             | Err err => (v :: vs, Err (ErrSetField name err))
             | Panic => (v :: vs, Panic)
             end)
     /\ (forall sub customParser subVals,
           typ = StructT sub (Some customParser) ->
           parseEnv lib os envVars sub (fieldValues v) = (subVals, Ok tt) ->
           populate =
             let '(v', err) := customParser dflt (VStruct subVals) in
             match err with
             | Ok _ =>
                 let '(vs', err) := parseEnv lib os envVars rest vs in
                 (v' :: vs', err)
             | _ => (v' :: vs, err)
             end)).
Proof.
  intros Htag Hun envTag dflt populate.
  pose proof (getValue_unresolved os tag envVars Htag Hun) as Hget.
  subst envTag dflt populate.
  destruct (String.eqb (TagGet tag "required") "true").
  - split; [exact Hget|split; [reflexivity|split]].
    + intros Hrec. by rewrite (parseEnv_scalar _ _ _ _ _ _ _ _ _ Hrec), Hget.
    + intros sub cp subVals -> Hsub.
      by rewrite (parseEnv_capability _ _ _ _ _ _ _ _ _ _ _ Hsub), Hget.
  - split; [exact Hget|split].
    + intros Hrec. by rewrite (parseEnv_scalar _ _ _ _ _ _ _ _ _ Hrec), Hget.
    + intros sub cp subVals -> Hsub.
      by rewrite (parseEnv_capability _ _ _ _ _ _ _ _ _ _ _ Hsub), Hget.
Qed.

Lemma required_and_default_of_resolved_fields_witness :
  parseEnv Examples.noConversions Examples.bare ∅ Shapes.name
           [VString EmptyString]
  = ([VString EmptyString], Err (ErrRequiredMissing "NAME")).
Proof.
  pose proof (required_and_default_of_resolved_fields
                Examples.noConversions Examples.bare ∅ "Name"
                {[ "env" := "NAME"; "required" := "true" ]} StringT NoFields
                (VString EmptyString) [] eq_refl
                (conj (lookup_empty _) eq_refl)) as H.
  cbv zeta in H.
  change (String.eqb (TagGet {[ "env" := "NAME"; "required" := "true" ]}
                             "required") "true") with true in H.
  cbv iota in H.
  destruct H as (_ & _ & H & _). exact (H eq_refl).
Defined.

(** ** C10 *)



(** ** C2 *)

(** C2, as the code has it: the capability is called with whatever was
    resolved, the empty string included.  For any capability on a record
    field that carries no source name, [ParseEnv] receives the empty string;
    a field whose variable is set nowhere and has no default fails to
    populate when its capability rejects the empty string, while the scalar
    path leaves such a field alone. *)
Theorem capability_receives_empty_value (lib : Lib) (os : OS)
    (envVars : gmap string string) (name : string)
    (customParser : CustomParser) (rest : structFields) (vs : list Value) :
  parseEnv lib os envVars
           (Field name ∅ (StructT NoFields (Some customParser)) rest)
           (VStruct [] :: vs)
  = (let '(v', err) := customParser EmptyString (VStruct []) in
     match err with
     | Ok _ =>
         let '(vs', err) := parseEnv lib os envVars rest vs in (v' :: vs', err)
     | _ => (v' :: vs, err)
     end)
  /\ parseEnv lib Examples.bare ∅ Shapes.api [VStruct [VString EmptyString]]
     = ([VStruct [VString EmptyString]], Err (ErrCustom "endpoint: empty value"))
  /\ parseEnv lib Examples.bare ∅
              (Field "URL" {[ "env" := "API" ]} StringT NoFields)
              [VString EmptyString]
     = ([VString EmptyString], Ok tt).
Proof. split; [reflexivity | split; vm_compute; reflexivity]. Qed.

(** ** C4 *)

Lemma wrapInt_range (bits n : Z) :
  0 < bits ->
  - 2 ^ (bits - 1) <= wrapInt bits n < 2 ^ (bits - 1).
Proof.
  intros Hb. unfold wrapInt.
  assert (H2 : 2 ^ bits = 2 * 2 ^ (bits - 1)).
  { replace bits with (Z.succ (bits - 1)) at 1 by lia.
    rewrite Z.pow_succ_r by lia. reflexivity. }
  assert (Hpos : 0 < 2 ^ (bits - 1)) by (apply Z.pow_pos_nonneg; lia).
  pose proof (Z.mod_pos_bound (n + 2 ^ (bits - 1)) (2 ^ bits) ltac:(lia)).
  lia.
Qed.

Lemma wrapInt_fits (bits n : Z) :
  0 < bits -> - 2 ^ (bits - 1) <= n < 2 ^ (bits - 1) -> wrapInt bits n = n.
Proof.
  intros Hb Hn. unfold wrapInt.
  assert (H2 : 2 ^ bits = 2 * 2 ^ (bits - 1)).
  { replace bits with (Z.succ (bits - 1)) at 1 by lia.
    rewrite Z.pow_succ_r by lia. reflexivity. }
  rewrite Z.mod_small by lia. lia.
Qed.

(** C4, as the code has it: every signed integer field is parsed with
    [bitSize] 64 and the result is converted to the field's width on
    storing.  [PORT=300] for an [int8] field stores [44] and reports no
    error; only a numeral outside 64 bits is refused. *)
Theorem narrow_int_field_truncates (lib : Lib) (os : OS) (k : intKind)
    (value : string) :
  setValue lib (IntT k) value
  = (intVal ← strconv.ParseInt value 64; Ok (VInt (wrapInt (bitsOf k) intVal)))
  /\ parseEnv lib os {[ "PORT" := "300" ]} Shapes.port [VInt 0]
     = ([VInt 44], Ok tt)
  /\ setValue lib (IntT Int8) "300" = Ok (VInt 44)
  /\ strconv.ParseInt "300" 8 = Err (ErrRange "ParseInt" "300")
  /\ setValue lib (IntT Int16) "-32769" = Ok (VInt 32767)
  /\ setValue lib (IntT Int32) "4294967296" = Ok (VInt 0)
  /\ setValue lib (IntT Int64) "9223372036854775808"
     = Err (ErrRange "ParseInt" "9223372036854775808").
Proof. repeat split; vm_compute; reflexivity. Qed.

(** * Further properties of the code *)

(** ** Merging the files of a load *)

Lemma loadPaths_app (os : OS) (l1 l2 : list string) (acc : gmap string string) :
  loadPaths os (l1 ++ l2) acc = (m ← loadPaths os l1 acc; loadPaths os l2 m).
Proof.
  revert acc. induction l1 as [|p l1 IH]; intros acc; simpl; [reflexivity|].
  destruct (loadEnv os p); simpl; auto.
Qed.

Lemma assignAll_union (entries : list (string * string))
    (envVars : gmap string string) :
  NoDup entries.*1 ->
  assignAll entries envVars = list_to_map entries ∪ envVars.
Proof.
  unfold assignAll. revert envVars.
  induction entries as [|[k v] l IH]; intros envVars Hnd; simpl.
  - by rewrite (left_id_L ∅ (∪)).
  - apply NoDup_cons in Hnd as [Hk Hnd]. rewrite (IH _ Hnd).
    assert (Hnone : (list_to_map l : gmap string string) !! k = None)
      by (by apply not_elem_of_list_to_map_1).
    rewrite <- insert_union_r by exact Hnone.
    by rewrite insert_union_l.
Qed.

(** X1: when a further file is loaded after others, every key it defines
    holds the further file's value in the merged mapping, and every other key
    keeps what the earlier files gave it. *)
Theorem later_file_overrides (os : OS) (paths : list string) (path : string)
    (acc m fileVars : gmap string string) :
  loadPaths os paths acc = Ok m ->
  loadEnv os path = Ok fileVars ->
  exists merged,
    loadPaths os (paths ++ [path]) acc = Ok merged
    /\ (forall k v, fileVars !! k = Some v -> merged !! k = Some v)
    /\ (forall k, fileVars !! k = None -> merged !! k = m !! k).
Proof.
  intros Hm Hf. exists (fileVars ∪ m). split; [|split].
  - rewrite loadPaths_app, Hm. simpl. rewrite Hf. by rewrite mergeVars_union.
  - intros k v Hk. by apply lookup_union_Some_l.
  - intros k Hk. by apply lookup_union_r.
Qed.

Lemma later_file_overrides_witness :
  exists merged,
    loadPaths Examples.twoFiles (["a.env"] ++ ["a.env"]) ∅ = Ok merged
    /\ (forall k v, ({[ "X" := "foo" ]} : gmap string string) !! k = Some v ->
                    merged !! k = Some v)
    /\ (forall k, ({[ "X" := "foo" ]} : gmap string string) !! k = None ->
                  merged !! k = ({[ "X" := "foo" ]} : gmap string string) !! k).
Proof.
  apply (later_file_overrides Examples.twoFiles ["a.env"] "a.env" ∅
           {[ "X" := "foo" ]} {[ "X" := "foo" ]});
    vm_compute; reflexivity.
Defined.

(** X2: the loop that copies a file's mapping into the merged one gives the
    same mapping in whatever order it visits the entries (Go leaves the order
    of a [range] over a map unspecified). *)
Theorem merge_ignores_iteration_order (fileVars envVars : gmap string string)
    (entries : list (string * string)) :
  entries ≡ₚ map_to_list fileVars ->
  assignAll entries envVars = mergeVars fileVars envVars.
Proof.
  intros Hperm. rewrite mergeVars_union.
  rewrite assignAll_union.
  - f_equal. rewrite <- (list_to_map_to_list fileVars).
    apply list_to_map_proper; [|exact Hperm].
    rewrite Hperm. apply NoDup_fst_map_to_list.
  - rewrite Hperm. apply NoDup_fst_map_to_list.
Qed.

Lemma merge_ignores_iteration_order_witness :
  assignAll [("B", "2"); ("A", "1")] {[ "A" := "0" ]}
  = mergeVars {[ "A" := "1"; "B" := "2" ]} {[ "A" := "0" ]}
  /\ assignAll [("A", "1"); ("B", "2")] {[ "A" := "0" ]}
     = mergeVars {[ "A" := "1"; "B" := "2" ]} {[ "A" := "0" ]}.
Proof.
  split;
    apply (merge_ignores_iteration_order {[ "A" := "1"; "B" := "2" ]});
    match goal with
    | |- ?l ≡ₚ ?r => let r' := eval vm_compute in r in change (l ≡ₚ r')
    end;
    first [reflexivity | apply perm_swap].
Defined.

(** X3: the first file of a load that cannot be loaded ends the load with
    that file's error, wrapped once; the paths after it play no part, the
    populator is not run and the target record is handed back as it was. *)
Theorem failing_file_aborts_load (lib : Lib) (os : OS) (T : type)
    (instance : Value) (pre post : list string) (path : string)
    (m : gmap string string) (e : error) :
  loadPaths os pre ∅ = Ok m ->
  loadEnv os path = Err e ->
  loadPaths os (pre ++ path :: post) ∅ = Err (ErrLoading e)
  /\ fillSpecification lib os T instance (pre ++ path :: post)
     = (instance, Err (ErrLoading e)).
Proof.
  intros Hm He.
  assert (H : loadPaths os (pre ++ path :: post) ∅ = Err (ErrLoading e)).
  { rewrite loadPaths_app, Hm. simpl. by rewrite He. }
  split; [exact H|]. unfold fillSpecification. by rewrite H.
Qed.

Lemma failing_file_aborts_load_witness :
  fillSpecification Examples.noConversions Examples.twoFiles
    (StructT Shapes.name None) (VStruct [VString "kept"])
    (["a.env"] ++ "c.env" :: ["b.env"])
  = (VStruct [VString "kept"], Err (ErrLoading (ErrDoesNotExist "c.env"))).
Proof.
  apply (failing_file_aborts_load Examples.noConversions Examples.twoFiles
           (StructT Shapes.name None) (VStruct [VString "kept"])
           ["a.env"] ["b.env"] "c.env" {[ "X" := "foo" ]}
           (ErrDoesNotExist "c.env"));
    vm_compute; reflexivity.
Defined.

(** ** What the scanning loop keeps *)

(** A line that is read without error leaves the mapping as it was or
    assigns one key that passed the name check. *)
Lemma scanLine_mapping (os : OS) (st st' : scanState) (text : string) :
  scanLine os st text = Ok st' ->
  envVars st' = envVars st
  \/ exists key value,
       validEnvVarRegex key = true /\ envVars st' = <[key := value]> (envVars st).
Proof.
  unfold scanLine.
  destruct (String.eqb (TrimSpace text) EmptyString || HasPrefix (TrimSpace text) "#").
  { intros [= <-]. by left. }
  destruct (HasSuffix (TrimSpace text) "\").
  { intros [= <-]. by left. }
  destruct (cut "=" _) as [[k v]|]; [|intros [= <-]; by left].
  destruct (validEnvVarRegex (TrimSpace k)) eqn:Hk; simpl; [|discriminate].
  destruct (processValue (TrimSpace v)) as [value|]; [|discriminate].
  intros [= <-]. right. simpl. eauto.
Qed.

Lemma scanLine_skip (os : OS) (st : scanState) (text : string) :
  isSkipped text = true -> scanLine os st text = Ok st.
Proof. unfold isSkipped, scanLine. by intros ->. Qed.

Lemma scanLine_continued (os : OS) (st : scanState) (text : string) :
  isSkipped text = false -> isContinued text = true ->
  scanLine os st text =
  Ok (ScanState (envVars st) (buffer st +:+ TrimSuffix (TrimSpace text) "\") true).
Proof. unfold isSkipped, isContinued, scanLine. by intros -> ->. Qed.

Lemma scanLines_keysValid (os : OS) (ls : list string) (st st' : scanState) :
  keysValid (envVars st) -> scanLines os st ls = Ok st' -> keysValid (envVars st').
Proof.
  revert st. induction ls as [|text ls IH]; intros st Hst; simpl.
  - by intros [= <-].
  - destruct (scanLine os st text) as [st1| |] eqn:E; simpl; try discriminate.
    apply IH. destruct (scanLine_mapping _ _ _ _ E) as [-> | (key & value & Hk & ->)];
      [exact Hst|].
    intros k. destruct (decide (key = k)) as [<-|Hne]; [done|].
    rewrite lookup_insert_ne by done. apply Hst.
Qed.

Lemma loadEnv_keysValid (os : OS) (path : string) (m : gmap string string) :
  loadEnv os path = Ok m -> keysValid m.
Proof.
  unfold loadEnv. destruct (Open os (Clean os path)) as [f|err].
  - destruct (scanLines os scanInit (lines f)) as [st| |] eqn:E; simpl;
      try discriminate.
    destruct (scanErr f); [discriminate|]. intros [= <-].
    apply (scanLines_keysValid os (lines f) scanInit st); [|exact E].
    intros k [v Hv]. cbn in Hv. by rewrite lookup_empty in Hv.
  - destruct (not_exist err); discriminate.
Qed.

Lemma loadPaths_keysValid (os : OS) (paths : list string)
    (acc m : gmap string string) :
  keysValid acc -> loadPaths os paths acc = Ok m -> keysValid m.
Proof.
  revert acc. induction paths as [|p paths IH]; intros acc Hacc; simpl.
  - by intros [= <-].
  - destruct (loadEnv os p) as [fv| |] eqn:E; try discriminate.
    apply IH. rewrite mergeVars_union. intros k [v Hv].
    apply lookup_union_Some_raw in Hv as [Hv | [_ Hv]].
    + by apply (loadEnv_keysValid os p fv E).
    + by apply Hacc.
Qed.

(** X4: every key of the merged mapping of a load matches the identifier
    pattern, whatever files were loaded. *)
Theorem loaded_keys_are_identifiers (os : OS) (paths : list string)
    (m : gmap string string) (k : string) :
  loadPaths os paths ∅ = Ok m ->
  is_Some (m !! k) ->
  validEnvVarRegex k = true.
Proof.
  intros Hm Hk.
  apply (loadPaths_keysValid os paths ∅ m); [|exact Hm|exact Hk].
  intros k' [v Hv]. by rewrite lookup_empty in Hv.
Qed.

Lemma loaded_keys_are_identifiers_witness : validEnvVarRegex "Y" = true.
Proof.
  apply (loaded_keys_are_identifiers Examples.twoFiles ["a.env"; "b.env"]
           {[ "X" := "foo"; "Y" := "${X}bar" ]} "Y").
  - vm_compute. reflexivity.
  - vm_compute. eauto.
Defined.

(** X5: reading further lines never removes a key: a key the mapping holds
    is still in it after any lines that are read without error. *)
Theorem keys_are_never_removed (os : OS) (ls : list string)
    (st st' : scanState) (k : string) :
  scanLines os st ls = Ok st' ->
  is_Some (envVars st !! k) ->
  is_Some (envVars st' !! k).
Proof.
  revert st. induction ls as [|text ls IH]; intros st; simpl.
  - by intros [= <-].
  - destruct (scanLine os st text) as [st1| |] eqn:E; simpl; try discriminate.
    intros Hls Hk. apply (IH st1 Hls).
    destruct (scanLine_mapping _ _ _ _ E) as [-> | (key & value & _ & ->)];
      [exact Hk|].
    destruct (decide (key = k)) as [<-|Hne].
    + rewrite lookup_insert_eq. eauto.
    + by rewrite lookup_insert_ne.
Qed.

Lemma keys_are_never_removed_witness :
  is_Some (envVars (ScanState {[ "A" := "2"; "K" := "v" ]} EmptyString false)
           !! "K").
Proof.
  apply (keys_are_never_removed Examples.bare ["A=1"; "# c"; "A=2"]
           (ScanState {[ "K" := "v" ]} EmptyString false)
           (ScanState {[ "A" := "2"; "K" := "v" ]} EmptyString false) "K").
  - vm_compute. reflexivity.
  - vm_compute. eauto.
Defined.

(** X6: blank lines and comment lines play no part wherever they stand:
    a file read without them gives the same result, error or panic. *)
Theorem skipped_lines_are_irrelevant (os : OS) (st : scanState)
    (ls : list string) :
  scanLines os st (List.filter (fun text => negb (isSkipped text)) ls)
  = scanLines os st ls.
Proof.
  revert st. induction ls as [|text ls IH]; intros st; simpl; [reflexivity|].
  destruct (isSkipped text) eqn:E; simpl.
  - rewrite (scanLine_skip os st text E). simpl. apply IH.
  - destruct (scanLine os st text); simpl; auto.
Qed.

(** X7: lines ending in a backslash that no closing line follows are lost:
    after any lines read, further lines that are each blank, a comment or a
    continuation leave the mapping as it was, and nothing is reported. *)
Theorem unfinished_continuation_is_dropped (os : OS) (st st1 : scanState)
    (pre trailing : list string) :
  scanLines os st pre = Ok st1 ->
  Forall (fun text => isSkipped text = true \/ isContinued text = true) trailing ->
  exists st2,
    scanLines os st (pre ++ trailing) = Ok st2 /\ envVars st2 = envVars st1.
Proof.
  intros Hpre Htr. rewrite scanLines_app, Hpre. simpl. clear Hpre.
  revert st1. induction Htr as [|text l Ht _ IH]; intros st1; simpl; [eauto|].
  destruct (isSkipped text) eqn:E.
  - rewrite (scanLine_skip os st1 text E). simpl. apply IH.
  - destruct Ht as [Ht|Ht]; [discriminate|].
    rewrite (scanLine_continued os st1 text E Ht). simpl.
    destruct (IH (ScanState (envVars st1)
                            (buffer st1 +:+ TrimSuffix (TrimSpace text) "\") true))
      as (st2 & H1 & H2).
    exists st2. split; [exact H1 | exact H2].
Qed.

Lemma unfinished_continuation_is_dropped_witness :
  exists st2,
    scanLines Examples.bare scanInit (["A=1"] ++ ["B=2\"; "# c"; " 3 \"])
    = Ok st2
    /\ envVars st2 = envVars (ScanState {[ "A" := "1" ]} EmptyString false).
Proof.
  apply (unfinished_continuation_is_dropped Examples.bare scanInit
           (ScanState {[ "A" := "1" ]} EmptyString false)
           ["A=1"] ["B=2\"; "# c"; " 3 \"]).
  - vm_compute. reflexivity.
  - constructor; [right; reflexivity|].
    constructor; [left; reflexivity|].
    constructor; [right; reflexivity|]. constructor.
Defined.

(** X8: a line is refused exactly when it is a complete assignment whose
    trimmed key fails the identifier pattern; the error names that key, and
    the value of the line is not looked at. *)
Theorem invalid_key_is_the_only_line_error (os : OS) (st : scanState)
    (text : string) (e : error) :
  scanLine os st text = Err e <->
  exists k v,
    isSkipped text = false /\ isContinued text = false
    /\ cut "=" (logicalLine st (TrimSpace text)) = Some (k, v)
    /\ validEnvVarRegex (TrimSpace k) = false
    /\ e = ErrInvalidName (TrimSpace k).
Proof.
  unfold scanLine, isSkipped, isContinued, logicalLine.
  destruct (String.eqb (TrimSpace text) EmptyString || HasPrefix (TrimSpace text) "#").
  { split; [discriminate | intros (k & v & H & _); discriminate]. }
  destruct (HasSuffix (TrimSpace text) "\").
  { split; [discriminate | intros (k & v & _ & H & _); discriminate]. }
  destruct (cut "=" _) as [[k v]|].
  2: { split; [discriminate | intros (k & v & _ & _ & H & _); discriminate]. }
  destruct (validEnvVarRegex (TrimSpace k)) eqn:Hk; simpl.
  - split.
    + destruct (processValue (TrimSpace v)); discriminate.
    + intros (k' & v' & _ & _ & [= <- <-] & H & _). congruence.
  - split.
    + intros [= <-]. exists k, v. auto.
    + intros (k' & v' & _ & _ & [= <- <-] & _ & ->). reflexivity.
Qed.

(** X9: a refused line ends the load of its file with that error: the lines
    after it are not read, whatever they hold, and a read failure that would
    have come later is not reported. *)
Theorem refused_line_ends_the_load (os : OS) (path : string) (f : file)
    (st : scanState) (pre post : list string) (text : string) (e : error) :
  Open os (Clean os path) = inl f ->
  lines f = pre ++ text :: post ->
  scanLines os scanInit pre = Ok st ->
  scanLine os st text = Err e ->
  loadEnv os path = Err e.
Proof.
  intros Hopen Hlines Hpre He. unfold loadEnv.
  rewrite Hopen, Hlines, scanLines_app, Hpre. simpl. by rewrite He.
Qed.

Lemma refused_line_ends_the_load_witness :
  loadEnv (MkOS (fun p => p)
                (fun _ => inl (File ["A=1"; "2B=x"; "C='"]
                                    (Some (OsError false "read error"))))
                ∅)
          "x.env"
  = Err (ErrInvalidName "2B").
Proof.
  apply (refused_line_ends_the_load _ "x.env"
           (File ["A=1"; "2B=x"; "C='"] (Some (OsError false "read error")))
           (ScanState {[ "A" := "1" ]} EmptyString false)
           ["A=1"] ["C='"] "2B=x");
    vm_compute; reflexivity.
Defined.

(** ** Value post-processing *)

Lemma replaceEscapes_snoc (q : ascii) (n : nat) (body : string) :
  (String.length body <= n)%nat ->
  isQuote q = true ->
  replaceEscapes (body +:+ String q EmptyString)
  = replaceEscapes body +:+ String q EmptyString.
Proof.
  intros Hlen Hq.
  assert (Hplain : eqc q "\" = false /\ eqc q "n" = false
                   /\ eqc q "t" = false /\ eqc q "r" = false).
  { unfold isQuote in Hq. apply orb_prop in Hq as [Hq|Hq];
      apply Ascii.eqb_eq in Hq; subst q; repeat split; reflexivity. }
  destruct Hplain as (Hb & Hn & Ht & Hr).
  revert body Hlen. induction n as [|n IH]; intros body Hlen.
  { destruct body; [reflexivity | simpl in Hlen; lia]. }
  destruct body as [|c [|d r]].
  - reflexivity.
  - cbn [String.append]. rewrite replaceEscapes_step.
    rewrite Hn, Ht, Hr, Hb. by destruct (eqc c "\").
  - cbn [String.append]. rewrite !replaceEscapes_step.
    simpl in Hlen.
    assert (IHr : replaceEscapes (r +:+ String q EmptyString)
                  = replaceEscapes r +:+ String q EmptyString)
      by (apply IH; lia).
    assert (IHd : replaceEscapes (String d (r +:+ String q EmptyString))
                  = replaceEscapes (String d r) +:+ String q EmptyString)
      by (apply (IH (String d r)); simpl; lia).
    destruct (eqc c "\"); [|by rewrite IHd].
    destruct (eqc d "n"); [by rewrite IHr|].
    destruct (eqc d "t"); [by rewrite IHr|].
    destruct (eqc d "r"); [by rewrite IHr|].
    destruct (eqc d "\"); [by rewrite IHr|].
    by rewrite IHd.
Qed.

Lemma get_snoc (w : string) (q : ascii) :
  String.get (String.length w) (w +:+ String q EmptyString) = Some q.
Proof. induction w as [|c w IH]; simpl; [reflexivity | exact IH]. Qed.

Lemma substring_snoc (w : string) (q : ascii) :
  String.substring 0 (String.length w) (w +:+ String q EmptyString) = w.
Proof. induction w as [|c w IH]; simpl; [reflexivity | by rewrite IH]. Qed.

Lemma length_snoc (w : string) (q : ascii) :
  String.length (w +:+ String q EmptyString) = S (String.length w).
Proof. induction w as [|c w IH]; simpl; [reflexivity | by rewrite IH]. Qed.

(** X10: a value wrapped in a pair of double quotes or of single quotes
    loses exactly that pair, and what was between them has its escape
    sequences replaced; nothing else of it is touched, quotes inside
    included. *)
Theorem quoted_value_loses_one_pair (q : ascii) (body : string) :
  isQuote q = true ->
  processValue (String q (body +:+ String q EmptyString))
  = Some (replaceEscapes body).
Proof.
  intros Hq.
  assert (Hb : eqc q "\" = false).
  { unfold isQuote in Hq. apply orb_prop in Hq as [H|H];
      apply Ascii.eqb_eq in H; subst q; reflexivity. }
  assert (Hrep : replaceEscapes (String q (body +:+ String q EmptyString))
                 = String q (replaceEscapes body +:+ String q EmptyString)).
  { rewrite <- (replaceEscapes_snoc q (String.length body) body (le_n _) Hq).
    destruct body as [|c r]; cbn [String.append];
      rewrite replaceEscapes_step; by rewrite Hb. }
  unfold processValue. cbn [String.eqb]. rewrite Hrep.
  set (w := replaceEscapes body).
  assert (Hlen : len (String q (w +:+ String q EmptyString))
                 = Z.of_nat (String.length w) + 2).
  { unfold len. simpl. rewrite length_snoc. lia. }
  assert (H0 : index (String q (w +:+ String q EmptyString)) 0 = Some q).
  { unfold index. rewrite Hlen. change (0 <=? 0) with true.
    rewrite (proj2 (Z.ltb_lt 0 _)) by lia. reflexivity. }
  assert (Hl : index (String q (w +:+ String q EmptyString))
                     (len (String q (w +:+ String q EmptyString)) - 1) = Some q).
  { unfold index. rewrite Hlen.
    rewrite (proj2 (Z.leb_le 0 _)) by lia.
    rewrite (proj2 (Z.ltb_lt _ _)) by lia. cbn [andb].
    replace (Z.to_nat (Z.of_nat (String.length w) + 2 - 1))
      with (S (String.length w)) by lia.
    simpl. apply get_snoc. }
  assert (Hs : slice (String q (w +:+ String q EmptyString)) 1
                     (len (String q (w +:+ String q EmptyString)) - 1) = Some w).
  { unfold slice. rewrite Hlen. change (0 <=? 1) with true.
    rewrite (proj2 (Z.leb_le 1 _)) by lia.
    rewrite (proj2 (Z.leb_le _ _)) by lia. cbn [andb].
    replace (Z.to_nat (Z.of_nat (String.length w) + 2 - 1 - 1))
      with (String.length w) by lia.
    change (Z.to_nat 1) with 1%nat. simpl. by rewrite substring_snoc. }
  rewrite H0. cbn [mbind option_bind]. rewrite Hq, Hl.
  cbn [mbind option_bind]. by rewrite eqc_refl, Hs.
Qed.

Lemma quoted_value_loses_one_pair_witness :
  processValue "'it's a \t tab'"
  = Some ("it's a " +:+ String (chr 9) " tab").
Proof.
  exact (quoted_value_loses_one_pair "'" "it's a \t tab" eq_refl).
Defined.

Lemma index_head (c : ascii) (r : string) : index (String c r) 0 = Some c.
Proof.
  unfold index. change (0 <=? 0) with true.
  rewrite (proj2 (Z.ltb_lt 0 _)) by (unfold len; simpl; lia). reflexivity.
Qed.

Lemma replaceEscapes_plain (value : string) :
  noBackslash value = true -> replaceEscapes value = value.
Proof.
  induction value as [|c r IH]; [reflexivity|]. simpl noBackslash.
  intros [Hc Hr]%andb_prop. apply negb_true_iff in Hc.
  destruct r as [|d r']; [reflexivity|].
  rewrite replaceEscapes_step, Hc. by rewrite (IH Hr).
Qed.

Lemma replaceEscapes_head (c : ascii) (s : string) :
  isQuote c = false ->
  exists d r, replaceEscapes (String c s) = String d r /\ isQuote d = false.
Proof.
  intros Hc. destruct s as [|e s]; [by exists c, EmptyString|].
  rewrite replaceEscapes_step.
  destruct (eqc c "\"); [|eauto].
  destruct (eqc e "n"); [eauto|]. destruct (eqc e "t"); [eauto|].
  destruct (eqc e "r"); [eauto|]. destruct (eqc e "\"); eauto.
Qed.

(** X11: a value whose first byte is not a quote only has its escape
    sequences replaced, and one without a backslash either is returned as
    it is. *)
Theorem unquoted_value_is_kept (c : ascii) (s : string) :
  isQuote c = false ->
  processValue (String c s) = Some (replaceEscapes (String c s))
  /\ (noBackslash (String c s) = true ->
      processValue (String c s) = Some (String c s)).
Proof.
  intros Hc.
  assert (H : processValue (String c s) = Some (replaceEscapes (String c s))).
  { unfold processValue. cbn [String.eqb].
    destruct (replaceEscapes_head c s Hc) as (d & r & -> & Hd).
    rewrite index_head. cbn [mbind option_bind]. by rewrite Hd. }
  split; [exact H|]. intros Hp. by rewrite H, (replaceEscapes_plain _ Hp).
Qed.

Lemma unquoted_value_is_kept_witness :
  processValue "a 'b' c" = Some (replaceEscapes "a 'b' c")
  /\ (noBackslash "a 'b' c" = true -> processValue "a 'b' c" = Some "a 'b' c").
Proof. exact (unquoted_value_is_kept "a" " 'b' c" eq_refl). Defined.

(** ** Expansion *)

(** X12: a value without a dollar sign is expanded to itself, whatever the
    mapping and the process environment hold. *)
Theorem value_without_dollar_is_unchanged (os : OS) (value : string)
    (m : gmap string string) :
  noDollar value = true -> expandEnvVars os value m = value.
Proof.
  induction value as [|c r IH]; [reflexivity|]. simpl noDollar.
  intros [Hc Hr]%andb_prop. apply negb_true_iff in Hc.
  rewrite expandEnvVars_unfold, (envVarRegex_not_dollar _ _ Hc).
  by rewrite (IH Hr).
Qed.

Lemma value_without_dollar_is_unchanged_witness :
  expandEnvVars Examples.twoFiles "{X} costs 5 USD" {[ "X" := "foo" ]}
  = "{X} costs 5 USD".
Proof.
  exact (value_without_dollar_is_unchanged Examples.twoFiles "{X} costs 5 USD"
           {[ "X" := "foo" ]} eq_refl).
Defined.



(** ** The populator *)

Lemma parseEnv_length (lib : Lib) (os : OS) (envVars : gmap string string)
    (fs : structFields) (vals : list Value) :
  length (parseEnv lib os envVars fs vals).1 = length vals.
Proof.
  revert vals. induction fs as [|name tag typ rest IH]; intros vals.
  { by destruct vals. }
  destruct vals as [|v vs]; [reflexivity|].
  destruct (isRecord typ) eqn:Hrec.
  - destruct typ as [| | | | | | |sub custom|]; try discriminate.
    cbn [parseEnv]. specialize (IH vs).
    destruct (parseEnv lib os envVars sub (fieldValues v)) as [sv [[]|e|]];
      try reflexivity.
    destruct custom as [cp|].
    + destruct (getValueFromEnvOrFile os tag envVars) as [s| |]; try reflexivity.
      destruct (cp s (VStruct sv)) as [v' [[]|e|]]; try reflexivity.
      destruct (parseEnv lib os envVars rest vs) as [r e]. simpl in *. by rewrite IH.
    + destruct (parseEnv lib os envVars rest vs) as [r e]. simpl in *. by rewrite IH.
  - rewrite (parseEnv_scalar _ _ _ _ _ _ _ _ _ Hrec). specialize (IH vs).
    destruct (getValueFromEnvOrFile os tag envVars) as [s| |]; try reflexivity.
    destruct (String.eqb s EmptyString).
    + destruct (parseEnv lib os envVars rest vs) as [r e]. simpl in *. by rewrite IH.
    + destruct (setValue lib typ s); try reflexivity.
      destruct (parseEnv lib os envVars rest vs) as [r e]. simpl in *. by rewrite IH.
Qed.

(** X14: fields are populated in the order they are declared and the first
    failure ends the call: a record whose fields are [fs] followed by [gs]
    is populated as [fs] is; if that succeeds [gs] is populated next, and if
    it fails the values of [gs] are left as they were and the failure is
    the result. *)
Theorem fields_are_populated_in_order (lib : Lib) (os : OS)
    (envVars : gmap string string) (fs gs : structFields)
    (vals rest : list Value) :
  length vals = numFields fs ->
  parseEnv lib os envVars (appFields fs gs) (vals ++ rest) =
  let '(done, err) := parseEnv lib os envVars fs vals in
  match err with
  | Ok _ =>
      let '(more, err) := parseEnv lib os envVars gs rest in (done ++ more, err)
  | _ => (done ++ rest, err)
  end.
Proof.
  revert vals. induction fs as [|name tag typ fs IH]; intros vals Hlen.
  { destruct vals; [|discriminate]. simpl.
    by destruct (parseEnv lib os envVars gs rest). }
  destruct vals as [|v vs]; [discriminate|]. injection Hlen as Hlen.
  specialize (IH vs Hlen).
  cbn [appFields app].
  destruct (isRecord typ) eqn:Hrec.
  - destruct typ as [| | | | | | |sub custom|]; try discriminate.
    cbn [parseEnv].
    destruct (parseEnv lib os envVars sub (fieldValues v)) as [sv [[]|e|]];
      try reflexivity.
    destruct custom as [cp|].
    + destruct (getValueFromEnvOrFile os tag envVars) as [s| |]; try reflexivity.
      destruct (cp s (VStruct sv)) as [v' [[]|e|]]; try reflexivity.
      rewrite IH.
      destruct (parseEnv lib os envVars fs vs) as [r [[]|e|]]; try reflexivity.
      by destruct (parseEnv lib os envVars gs rest).
    + rewrite IH.
      destruct (parseEnv lib os envVars fs vs) as [r [[]|e|]]; try reflexivity.
      by destruct (parseEnv lib os envVars gs rest).
  - rewrite !(parseEnv_scalar _ _ _ _ _ _ _ _ _ Hrec).
    destruct (getValueFromEnvOrFile os tag envVars) as [s| |]; try reflexivity.
    destruct (String.eqb s EmptyString).
    + rewrite IH.
      destruct (parseEnv lib os envVars fs vs) as [r [[]|e|]]; try reflexivity.
      by destruct (parseEnv lib os envVars gs rest).
    + destruct (setValue lib typ s); try reflexivity.
      rewrite IH.
      destruct (parseEnv lib os envVars fs vs) as [r [[]|e|]]; try reflexivity.
      by destruct (parseEnv lib os envVars gs rest).
Qed.

Lemma fields_are_populated_in_order_witness :
  parseEnv Examples.noConversions Examples.bare {[ "PORT" := "80" ]}
           (appFields Shapes.port (appFields Shapes.name Shapes.port))
           ([VInt 0] ++ [VString EmptyString; VInt 7])
  = ([VInt 80; VString EmptyString; VInt 7], Err (ErrRequiredMissing "NAME")).
Proof.
  rewrite (fields_are_populated_in_order Examples.noConversions Examples.bare
             {[ "PORT" := "80" ]} Shapes.port
             (appFields Shapes.name Shapes.port)
             [VInt 0] [VString EmptyString; VInt 7] eq_refl).
  vm_compute. reflexivity.
Defined.

(** X15: a field that is not a nested record and has no source name is
    passed over: it keeps what it held and raises no error, whatever its
    type, its default and its required flag, and whatever the mapping and
    the process environment hold. *)
Theorem field_without_source_name_is_passed_over (lib : Lib) (os : OS)
    (envVars : gmap string string) (name : string) (tag : gmap string string)
    (typ : type) (rest : structFields) (v : Value) (vs : list Value) :
  TagGet tag "env" = EmptyString ->
  isRecord typ = false ->
  parseEnv lib os envVars (Field name tag typ rest) (v :: vs) =
  let '(vs', err) := parseEnv lib os envVars rest vs in (v :: vs', err).
Proof.
  intros Htag Hrec. rewrite (parseEnv_scalar _ _ _ _ _ _ _ _ _ Hrec).
  unfold getValueFromEnvOrFile. by rewrite Htag.
Qed.

Lemma field_without_source_name_is_passed_over_witness :
  parseEnv Examples.noConversions Examples.bare {[ "Secret" := "x" ]}
           (Field "Secret" {[ "required" := "true"; "default" := "d" ]}
                  (OtherT "chan") NoFields)
           [VOpaque]
  = ([VOpaque], Ok tt).
Proof.
  exact (field_without_source_name_is_passed_over
           Examples.noConversions Examples.bare {[ "Secret" := "x" ]}
           "Secret" {[ "required" := "true"; "default" := "d" ]}
           (OtherT "chan") NoFields VOpaque [] eq_refl eq_refl).
Defined.

(** ** Conversions *)

Lemma mapResult_Ok {A B : Type} (f : A -> result B) (l : list A) (bs : list B) :
  mapResult f l = Ok bs <-> Forall2 (fun a b => f a = Ok b) l bs.
Proof.
  revert bs. induction l as [|a l IH]; intros bs; simpl.
  - split; [intros [= <-]; constructor | intros H; by inversion H].
  - destruct (f a) as [b| |] eqn:Ea; simpl.
    + destruct (mapResult f l) as [bs'| |] eqn:El; simpl.
      * split.
        -- intros [= <-]. constructor; [exact Ea | by apply IH].
        -- intros H. inversion H as [|? b' ? bs'' Hb Hl]; subst.
           rewrite Ea in Hb. injection Hb as <-.
           apply IH in Hl. by injection Hl as <-.
      * split; [discriminate|]. intros H. inversion H as [|? b' ? bs'' Hb Hl]; subst.
        apply IH in Hl. discriminate.
      * split; [discriminate|]. intros H. inversion H as [|? b' ? bs'' Hb Hl]; subst.
        apply IH in Hl. discriminate.
    + split; [discriminate|]. intros H. inversion H; subst. congruence.
    + split; [discriminate|]. intros H. inversion H; subst. congruence.
Qed.

Lemma Split_length (sep : ascii) (s : string) :
  length (Split sep s) = S (countByte sep s).
Proof.
  induction s as [|c r IH]; simpl; [reflexivity|].
  destruct (eqc c sep); simpl; [by rewrite IH|].
  destruct (Split sep r) as [|x xs]; simpl in *; [discriminate | exact IH].
Qed.

(** X16: a list field is set exactly when every comma-separated piece of
    the value, trimmed, converts to the element type; the list then holds
    the converted pieces in order, one more than the value has commas. *)
Theorem list_field_converts_piecewise (lib : Lib) (elem : type)
    (value : string) (v : Value) :
  setValue lib (SliceT elem) value = Ok v <->
  exists elems,
    v = VSlice elems
    /\ Forall2 (fun piece x => setValue lib elem (TrimSpace piece) = Ok x)
               (Split "," value) elems
    /\ length elems = S (countByte "," value).
Proof.
  cbn [setValue].
  destruct (mapResult (fun e => setValue lib elem (TrimSpace e)) (Split "," value))
    as [elems| |] eqn:E; simpl.
  - apply mapResult_Ok in E. split.
    + intros [= <-]. exists elems. split; [reflexivity|split; [exact E|]].
      rewrite <- (Forall2_length _ _ _ E). apply Split_length.
    + intros (elems' & -> & H & _). apply mapResult_Ok in H, E.
      rewrite E in H. by injection H as ->.
  - split; [discriminate|]. intros (elems' & _ & H & _).
    apply mapResult_Ok in H. congruence.
  - split; [discriminate|]. intros (elems' & _ & H & _).
    apply mapResult_Ok in H. congruence.
Qed.

Lemma mapResult_total {A B : Type} (f : A -> result B) (g : A -> B)
    (l : list A) :
  Forall (fun a => f a = Ok (g a)) l -> mapResult f l = Ok (map g l).
Proof.
  induction 1 as [|a l Ha _ IH]; simpl; [reflexivity|]. by rewrite Ha, IH.
Qed.

Lemma setValue_string_list (lib : Lib) (value : string) :
  setValue lib (SliceT StringT) value
  = Ok (VSlice (map (fun piece => VString (TrimSpace piece)) (Split "," value))).
Proof.
  cbn [setValue].
  rewrite (mapResult_total _ (fun piece => VString (TrimSpace piece)));
    [reflexivity|].
  apply Forall_forall. reflexivity.
Qed.

(** X17: a list-of-strings field accepts every value: it is set to the
    trimmed pieces between the commas, empty pieces included, so it never
    ends up empty. *)
Theorem string_list_always_converts (lib : Lib) (value : string) :
  exists elems,
    setValue lib (SliceT StringT) value = Ok (VSlice elems)
    /\ elems = map (fun piece => VString (TrimSpace piece)) (Split "," value)
    /\ length elems = S (countByte "," value).
Proof.
  eexists. split; [apply setValue_string_list|]. split; [reflexivity|].
  rewrite length_map. apply Split_length.
Qed.

(** X18: whatever is stored in a signed integer field lies in the range of
    the field's width, and a numeral whose value is in that range is stored
    as that value. *)
Theorem integer_field_holds_value_of_its_width (lib : Lib) (k : intKind)
    (value : string) (n : Z) :
  strconv.ParseInt value 64 = Ok n ->
  exists stored,
    setValue lib (IntT k) value = Ok (VInt stored)
    /\ - 2 ^ (bitsOf k - 1) <= stored < 2 ^ (bitsOf k - 1)
    /\ (- 2 ^ (bitsOf k - 1) <= n < 2 ^ (bitsOf k - 1) -> stored = n).
Proof.
  intros Hn. exists (wrapInt (bitsOf k) n).
  assert (Hb : 0 < bitsOf k) by (destruct k; reflexivity).
  split; [|split].
  - cbn [setValue]. by rewrite Hn.
  - by apply wrapInt_range.
  - by apply wrapInt_fits.
Qed.

Lemma integer_field_holds_value_of_its_width_witness :
  exists stored,
    setValue Examples.noConversions (IntT Int16) "-32768" = Ok (VInt stored)
    /\ - 2 ^ (bitsOf Int16 - 1) <= stored < 2 ^ (bitsOf Int16 - 1)
    /\ (- 2 ^ (bitsOf Int16 - 1) <= -32768 < 2 ^ (bitsOf Int16 - 1) ->
        stored = -32768).
Proof.
  exact (integer_field_holds_value_of_its_width Examples.noConversions Int16
           "-32768" (-32768) eq_refl).
Defined.

(** X19: a field of a kind the populator has no conversion for is reported,
    with the field's name and its kind, only when a value is resolved for
    it; with nothing resolved it is passed over in silence. *)
Theorem unsupported_kind_is_reported_only_with_a_value (lib : Lib) (os : OS)
    (envVars : gmap string string) (name kind resolved : string)
    (tag : gmap string string) (rest : structFields) (v : Value)
    (vs : list Value) :
  getValueFromEnvOrFile os tag envVars = Ok resolved ->
  parseEnv lib os envVars (Field name tag (OtherT kind) rest) (v :: vs) =
    (if String.eqb resolved EmptyString
     then let '(vs', err) := parseEnv lib os envVars rest vs in (v :: vs', err)
     else (v :: vs, Err (ErrSetField name (ErrUnsupported kind))))
  /\ Error (ErrSetField name (ErrUnsupported kind))
     = "error setting field " +:+ name +:+ ": unsupported type " +:+ kind.
Proof.
  intros H. split; [|reflexivity].
  rewrite (parseEnv_scalar _ _ _ _ _ _ _ _ _ (eq_refl : isRecord (OtherT kind) = false)).
  rewrite H. by destruct (String.eqb resolved EmptyString).
Qed.

Lemma unsupported_kind_is_reported_only_with_a_value_witness :
  parseEnv Examples.noConversions Examples.bare {[ "RATE" := "0.5" ]}
           (Field "Rate" {[ "env" := "RATE" ]} (OtherT "float64") NoFields)
           [VOpaque]
  = ([VOpaque], Err (ErrSetField "Rate" (ErrUnsupported "float64"))).
Proof.
  apply (unsupported_kind_is_reported_only_with_a_value
           Examples.noConversions Examples.bare {[ "RATE" := "0.5" ]}
           "Rate" "float64" "0.5" {[ "env" := "RATE" ]} NoFields VOpaque []).
  vm_compute. reflexivity.
Defined.

(** ** The two builds of the entry point *)

Lemma getValue_environ (os os' : OS) (tag envVars : gmap string string) :
  environ os = environ os' ->
  getValueFromEnvOrFile os tag envVars = getValueFromEnvOrFile os' tag envVars.
Proof. intros H. unfold getValueFromEnvOrFile, Getenv. by rewrite H. Qed.

Lemma parseEnv_environ (lib : Lib) (os os' : OS) (envVars : gmap string string)
    (fs : structFields) :
  environ os = environ os' ->
  forall vals,
    parseEnv lib os envVars fs vals = parseEnv lib os' envVars fs vals.
Proof.
  intros Henv.
  apply (fields_type_ind
           (fun t => forall sub custom, t = StructT sub custom ->
              forall vals, parseEnv lib os envVars sub vals
                           = parseEnv lib os' envVars sub vals)
           (fun fs => forall vals, parseEnv lib os envVars fs vals
                                   = parseEnv lib os' envVars fs vals));
    try (intros; discriminate).
  - intros fields IH custom sub custom' [= <- _]. exact IH.
  - intros vals. by destruct vals.
  - intros name tag typ IHt rest IHr vals.
    destruct vals as [|v vs]; [reflexivity|].
    destruct (isRecord typ) eqn:Hrec.
    + destruct typ as [| | | | | | |sub custom|]; try discriminate.
      cbn [parseEnv]. rewrite (IHt sub custom eq_refl), IHr.
      by rewrite (getValue_environ os os' tag envVars Henv).
    + rewrite !(parseEnv_scalar _ _ _ _ _ _ _ _ _ Hrec), IHr.
      by rewrite (getValue_environ os os' tag envVars Henv).
Qed.

(** X20: the build without the [development] tag reads no file: what
    [RegisterEnvironment] does depends on the host through the process
    environment alone. *)
Theorem production_build_reads_no_file (lib : Lib) (os os' : OS) (T : type)
    (instance : Value) :
  environ os = environ os' ->
  production.RegisterEnvironment lib os T instance
  = production.RegisterEnvironment lib os' T instance.
Proof.
  intros Henv. unfold production.RegisterEnvironment, fillSpecification.
  cbn [loadPaths]. destruct T; try reflexivity.
  by rewrite (parseEnv_environ lib os os' ∅ fields Henv).
Qed.

Lemma production_build_reads_no_file_witness :
  production.RegisterEnvironment Examples.noConversions Examples.twoFiles
    (StructT Shapes.port None) (VStruct [VInt 0])
  = production.RegisterEnvironment Examples.noConversions Examples.bare
      (StructT Shapes.port None) (VStruct [VInt 0]).
Proof.
  exact (production_build_reads_no_file Examples.noConversions
           Examples.twoFiles Examples.bare (StructT Shapes.port None)
           (VStruct [VInt 0]) eq_refl).
Defined.

(** X21: in the [development] build a missing [.env] file ends the process:
    [RegisterEnvironment] does not return, and the message printed names
    the file, whatever the target record and the process environment are. *)
Theorem development_build_needs_env_file (lib : Lib) (os : OS) (T : type)
    (instance : Value) (err : os_error) :
  Open os (Clean os ".env") = inr err ->
  not_exist err = true ->
  development.RegisterEnvironment lib os T instance
  = Exits "error loading .env file: .env does not exist".
Proof.
  intros Hopen Hne.
  unfold development.RegisterEnvironment, fillSpecification,
    development.defaultEnvironmentFile.
  cbn [loadPaths]. unfold loadEnv. by rewrite Hopen, Hne.
Qed.

Lemma development_build_needs_env_file_witness :
  development.RegisterEnvironment Examples.noConversions Examples.twoFiles
    (StructT Shapes.port None) (VStruct [VInt 0])
  = Exits "error loading .env file: .env does not exist".
Proof.
  exact (development_build_needs_env_file Examples.noConversions
           Examples.twoFiles (StructT Shapes.port None) (VStruct [VInt 0])
           Examples.missing eq_refl eq_refl).
Defined.

(** ** Errors of the whole call *)

Lemma loadPaths_error (os : OS) (paths : list string)
    (acc : gmap string string) (e : error) :
  loadPaths os paths acc = Err e ->
  exists path cause,
    path ∈ paths /\ loadEnv os path = Err cause /\ e = ErrLoading cause.
Proof.
  revert acc. induction paths as [|p paths IH]; intros acc; simpl; [discriminate|].
  destruct (loadEnv os p) as [fv|c|] eqn:E.
  - intros H. destruct (IH _ H) as (path & cause & Hin & Hl & ->).
    exists path, cause. split; [by right|auto].
  - intros [= <-]. exists p, c. split; [by left|auto].
  - discriminate.
Qed.

(** X22: an error of [fillSpecification] always tells which half failed:
    it is the error of loading one of the given paths, wrapped as a load
    error with the record left as it was, or the populator's error wrapped
    as a field error; no error comes back bare. *)
Theorem errors_tell_load_from_population (lib : Lib) (os : OS) (T : type)
    (instance v : Value) (paths : list string) (e : error) :
  fillSpecification lib os T instance paths = (v, Err e) ->
  (exists path cause,
     path ∈ paths /\ loadEnv os path = Err cause
     /\ e = ErrLoading cause /\ v = instance)
  \/ (exists envVars fs custom vals cause,
        loadPaths os paths ∅ = Ok envVars /\ T = StructT fs custom
        /\ parseEnv lib os envVars fs (fieldValues instance) = (vals, Err cause)
        /\ e = ErrFieldLoad cause /\ v = VStruct vals).
Proof.
  unfold fillSpecification.
  destruct (loadPaths os paths ∅) as [envVars|c|] eqn:El.
  - destruct T as [| | | | | | |fs custom|]; try discriminate.
    destruct (parseEnv lib os envVars fs (fieldValues instance))
      as [vals [[]|cause|]] eqn:Ep; try discriminate.
    intros [= <- <-]. right. exists envVars, fs, custom, vals, cause. auto.
  - intros [= <- <-]. left.
    destruct (loadPaths_error _ _ _ _ El) as (path & cause & Hin & Hl & ->).
    exists path, cause. auto.
  - discriminate.
Qed.

Lemma errors_tell_load_from_population_witness :
  (exists path cause,
     path ∈ ["a.env"] /\ loadEnv Examples.twoFiles path = Err cause
     /\ ErrFieldLoad (ErrRequiredMissing "NAME") = ErrLoading cause
     /\ VStruct [VString EmptyString] = VStruct [VString EmptyString])
  \/ (exists envVars fs custom vals cause,
        loadPaths Examples.twoFiles ["a.env"] ∅ = Ok envVars
        /\ StructT Shapes.name None = StructT fs custom
        /\ parseEnv Examples.noConversions Examples.twoFiles envVars fs
                    (fieldValues (VStruct [VString EmptyString]))
           = (vals, Err cause)
        /\ ErrFieldLoad (ErrRequiredMissing "NAME") = ErrFieldLoad cause
        /\ VStruct [VString EmptyString] = VStruct vals).
Proof.
  apply (errors_tell_load_from_population Examples.noConversions
           Examples.twoFiles (StructT Shapes.name None)
           (VStruct [VString EmptyString]) (VStruct [VString EmptyString])
           ["a.env"] (ErrFieldLoad (ErrRequiredMissing "NAME"))).
  vm_compute. reflexivity.
Defined.

(** ** Panics of the file parser *)

Lemma processValue_None (value : string) :
  processValue value = None <->
  value = String dquote EmptyString \/ value = "'".
Proof.
  destruct value as [|c s].
  { split; [discriminate | intros [H|H]; discriminate]. }
  destruct (replaceEscapes_nonempty c s) as (d & r & Hrep).
  destruct (processValue_cases (String c s) d r ltac:(discriminate) Hrep)
    as (l & Hl & ->).
  split.
  - destruct (isQuote d && eqc l d) eqn:E; [|discriminate].
    intros ->%slice_tail. apply andb_prop in E as [Hq _].
    destruct (replaceEscapes_single _ _ Hrep) as [-> | Hn]; [|congruence].
    unfold isQuote in Hq. apply orb_prop in Hq as [Hq|Hq];
      apply Ascii.eqb_eq in Hq; subst d; auto.
  - intros Hv.
    assert (Hd : d = c /\ r = EmptyString /\ isQuote c = true).
    { destruct Hv as [[= -> ->] | [= -> ->]]; cbn in Hrep;
        injection Hrep as <- <-; auto. }
    destruct Hd as (-> & -> & Hq). rewrite (Hl eq_refl), Hq, eqc_refl.
    reflexivity.
Qed.

(** X23: reading a line panics exactly when the line is a complete
    assignment with a well-formed key whose trimmed value is a lone double
    or single quote; every other line is read, skipped or refused. *)
Theorem only_a_lone_quote_value_panics (os : OS) (st : scanState)
    (text : string) :
  scanLine os st text = Panic <->
  exists k v,
    isSkipped text = false /\ isContinued text = false
    /\ cut "=" (logicalLine st (TrimSpace text)) = Some (k, v)
    /\ validEnvVarRegex (TrimSpace k) = true
    /\ (TrimSpace v = String dquote EmptyString \/ TrimSpace v = "'").
Proof.
  unfold scanLine, isSkipped, isContinued, logicalLine.
  destruct (String.eqb (TrimSpace text) EmptyString || HasPrefix (TrimSpace text) "#").
  { split; [discriminate | intros (k & v & H & _); discriminate]. }
  destruct (HasSuffix (TrimSpace text) "\").
  { split; [discriminate | intros (k & v & _ & H & _); discriminate]. }
  destruct (cut "=" _) as [[k v]|].
  2: { split; [discriminate | intros (k & v & _ & _ & H & _); discriminate]. }
  destruct (validEnvVarRegex (TrimSpace k)) eqn:Hk; simpl.
  - destruct (processValue (TrimSpace v)) as [value|] eqn:Ev.
    + split; [discriminate|].
      intros (k' & v' & _ & _ & [= <- <-] & _ & H).
      apply processValue_None in H. congruence.
    + split; [|reflexivity]. intros _. exists k, v.
      apply processValue_None in Ev. auto.
  - split; [discriminate|].
    intros (k' & v' & _ & _ & [= <- <-] & H & _). congruence.
Qed.

(** ** Lists of lists *)

Lemma countByte_drop (sep : ascii) (n : nat) (s : string) :
  countByte sep s = 0%nat -> countByte sep (drop n s) = 0%nat.
Proof.
  revert s. induction n as [|n IH]; intros s; [done|].
  destruct s as [|c r]; [done|]. simpl. intros H. apply IH. lia.
Qed.

Lemma countByte_rev_onto (sep : ascii) (s acc : string) :
  countByte sep (rev_onto s acc) = (countByte sep s + countByte sep acc)%nat.
Proof.
  revert acc. induction s as [|c r IH]; intros acc; simpl; [reflexivity|].
  rewrite IH. simpl. lia.
Qed.

Lemma countByte_trimWith (sep : ascii) (width : string -> nat) (fuel : nat)
    (s : string) :
  countByte sep s = 0%nat -> countByte sep (trimWith width fuel s) = 0%nat.
Proof.
  revert s. induction fuel as [|fuel IH]; intros s H; cbn [trimWith]; [exact H|].
  destruct (width s) as [|w]; [exact H|]. apply IH.
  exact (countByte_drop sep (S w) s H).
Qed.

Lemma countByte_TrimSpace (sep : ascii) (s : string) :
  countByte sep s = 0%nat -> countByte sep (TrimSpace s) = 0%nat.
Proof.
  intros H. unfold TrimSpace, rev. rewrite countByte_rev_onto. simpl.
  rewrite Nat.add_0_r. apply countByte_trimWith.
  rewrite countByte_rev_onto. simpl. rewrite Nat.add_0_r.
  by apply countByte_trimWith.
Qed.

Lemma Split_whole (sep : ascii) (s : string) :
  countByte sep s = 0%nat -> Split sep s = [s].
Proof.
  induction s as [|c r IH]; simpl; [reflexivity|].
  destruct (eqc c sep); [discriminate|]. simpl. intros H. by rewrite (IH H).
Qed.

Lemma Split_pieces (sep : ascii) (s : string) :
  Forall (fun piece => countByte sep piece = 0%nat) (Split sep s).
Proof.
  induction s as [|c r IH]; simpl; [by repeat constructor|].
  destruct (eqc c sep) eqn:E.
  - by constructor.
  - destruct (Split sep r) as [|x xs].
    { constructor; [simpl; by rewrite E | constructor]. }
    inversion IH as [|? ? Hx Hxs]; subst. constructor; [|exact Hxs].
    simpl. by rewrite E.
Qed.

(** X24: in a field that is a list of lists of strings every inner list
    gets exactly one element: the value is cut at its commas for the outer
    list, so no comma is left to cut an inner one. *)
Theorem nested_list_has_singleton_rows (lib : Lib) (value : string) :
  setValue lib (SliceT (SliceT StringT)) value
  = Ok (VSlice (map (fun piece => VSlice [VString (TrimSpace (TrimSpace piece))])
                    (Split "," value))).
Proof.
  cbn [setValue].
  change (fun e : string =>
            elems ← mapResult (fun e0 => Ok (VString (TrimSpace e0)))
                              (Split "," (TrimSpace e));
            Ok (VSlice elems))
    with (fun e : string => setValue lib (SliceT StringT) (TrimSpace e)).
  rewrite (mapResult_total _
             (fun piece => VSlice [VString (TrimSpace (TrimSpace piece))]));
    [reflexivity|].
  eapply Forall_impl; [apply (Split_pieces "," value)|].
  intros piece Hp. cbn beta in *. rewrite setValue_string_list.
  by rewrite (Split_whole "," _ (countByte_TrimSpace "," piece Hp)).
Qed.

(** ** Nested records and the process environment *)

(** X25: when populating the fields of a nested record fails, the call ends
    with that failure as it is: the nested record keeps what was set before
    the failure, the capability of the record is not called, its own source
    name is not resolved, and the fields after it are left alone. *)
Theorem nested_failure_ends_population (lib : Lib) (os : OS)
    (envVars : gmap string string) (name : string) (tag : gmap string string)
    (sub : structFields) (custom : option CustomParser) (rest : structFields)
    (v : Value) (vs subVals : list Value) (e : error) :
  parseEnv lib os envVars sub (fieldValues v) = (subVals, Err e) ->
  parseEnv lib os envVars (Field name tag (StructT sub custom) rest) (v :: vs)
  = (VStruct subVals :: vs, Err e).
Proof. intros H. cbn [parseEnv]. by rewrite H. Qed.

Lemma nested_failure_ends_population_witness :
  parseEnv Examples.noConversions Examples.bare ∅
           (Field "Owner" {[ "env" := "OWNER"; "required" := "true" ]}
                  (StructT Shapes.name (Some Shapes.endpoint)) Shapes.port)
           [VStruct [VString "n"]; VInt 3]
  = ([VStruct [VString "n"]; VInt 3], Err (ErrRequiredMissing "NAME")).
Proof.
  apply (nested_failure_ends_population Examples.noConversions Examples.bare ∅
           "Owner" {[ "env" := "OWNER"; "required" := "true" ]} Shapes.name
           (Some Shapes.endpoint) Shapes.port (VStruct [VString "n"]) [VInt 3]
           [VString "n"] (ErrRequiredMissing "NAME")).
  vm_compute. reflexivity.
Defined.


